(** * Browser video-to-GIF converter: the FFmpegUtils orchestrator

    A shallow embedding of [src/utils/ffmpegUtils.js]: the capability probe
    [checkBrowserSupport], the engine bring-up [load] and the two-pass
    conversion [convertToGif], together with the JavaScript primitives they
    use ([Math.round], [Number.prototype.toString], [String.prototype.split],
    [Array.prototype.pop], [String.prototype.toLowerCase]).

    Numbers.  The numeric arguments of [convertToGif] are modelled at their
    integer values ([Z]); on integers of the sizes at hand the double
    arithmetic of the source ([-], [Math.min], [Math.max]) is exact.  The
    quotient [(100 - normalizedQuality) / 20] and the progress ratio are
    rationals ([Q]); [Math.round] rounds to the nearest integer, ties going
    up.

    The engine.  ffmpeg.wasm is outside the repository.  It is a record of
    oracles ([engine]): what its bring-up answers, what [fetchFile] answers,
    and what a command does to the virtual file system.  The virtual file
    system itself is a finite map from file names to byte buffers.

    Promises.  [load] and [convertToGif] are first run on their own, from
    call to settlement, against an engine; a call that has to wait for
    another caller's bring-up ends [Pending] there.  Several callers of
    [load] on one page are then modelled by the events that can happen
    between two pieces of running code ([step]).

    The components.  Beyond the orchestrator the file embeds
    [validateFile], [handleFile] and [handleDrop] of the uploader,
    [handleConvert] of [App], and [formatTime], [parseTimeString] and the
    four range handlers of the time-range selector, with [parseInt] and
    [padStart].  [estimateGifSize] is left out: its result hangs on the
    rounding of doubles. *)

From Stdlib Require Import ZArith QArith Qround Ascii String List Lia Lqa.
From stdpp Require Import gmap strings pretty.

Open Scope string_scope.
Open Scope Z_scope.

(** ** JavaScript primitives *)

Module Js.

(** [Math.round]: nearest integer, a tie rounds towards plus infinity. *)
Definition Math_round (x : Q) : Z := Qfloor (x + (1 # 2))%Q.

(** [n.toString()] on an integer-valued number. *)
Definition toString (n : Z) : string := pretty n.

(** Values that can be thrown or used to reject a promise here: an [Error]
    object carrying a message, or a bare string. *)
Inductive exn : Type :=
| Error (msg : string)
| Str (s : string).

(** [error.message]: the message of an [Error]; a string has no such
    property, and [undefined] is printed when it is concatenated. *)
Definition message (e : exn) : string :=
  match e with
  | Error m => m
  | Str _ => "undefined"
  end.

Definition is_upper (c : ascii) : bool :=
  let n := nat_of_ascii c in (Nat.leb 65 n && Nat.leb n 90)%bool.

Definition lower_ascii (c : ascii) : ascii :=
  if is_upper c then ascii_of_nat (nat_of_ascii c + 32) else c.

(** [s.toLowerCase()], on the ASCII letters. *)
Fixpoint toLowerCase (s : string) : string :=
  match s with
  | EmptyString => EmptyString
  | String c s' => String (lower_ascii c) (toLowerCase s')
  end.

(** [s.split(sep)] for a one-character separator: never the empty array. *)
Fixpoint split (sep : ascii) (s : string) : list string :=
  match s with
  | EmptyString => [EmptyString]
  | String c s' =>
      if Ascii.eqb c sep then EmptyString :: split sep s'
      else match split sep s' with
           | [] => [String c EmptyString]
           | piece :: rest => String c piece :: rest
           end
  end.

(** [a.pop()]: the last element, [undefined] on the empty array. *)
Fixpoint pop (a : list string) : option string :=
  match a with
  | [] => None
  | [x] => Some x
  | _ :: rest => pop rest
  end.

(** JavaScript values, as far as the capability probe looks at them.  The
    value [null] is left out: a browser binds the globals the probe reads to
    what the standards name, or not at all. *)
Inductive value : Type :=
| VUndefined
| VBool (b : bool)
| VNumber (n : Z)
| VString (s : string)
| VFunction
| VObject (props : properties)
with properties : Type :=
| PNil
| PCons (key : string) (v : value) (rest : properties).

(** [typeof v] *)
Definition typeof (v : value) : string :=
  match v with
  | VUndefined => "undefined"
  | VBool _ => "boolean"
  | VNumber _ => "number"
  | VString _ => "string"
  | VFunction => "function"
  | VObject _ => "object"
  end.

(** [typeof x] for a global identifier [x]: an identifier that is not
    declared answers ["undefined"] and does not throw. *)
Definition typeof_global (g : option value) : string :=
  match g with
  | None => "undefined"
  | Some v => typeof v
  end.

(** [o.p] on the property list of an object: a missing property reads as
    [undefined]. *)
Fixpoint get (props : properties) (p : string) : value :=
  match props with
  | PNil => VUndefined
  | PCons k v rest => if String.eqb k p then v else get rest p
  end.

(** [v.p]: a value that is not an object has no property of its own to
    read here. *)
Definition get_property (v : value) (p : string) : value :=
  match v with
  | VObject props => get props p
  | _ => VUndefined
  end.

(** [v === true] *)
Definition strict_eq_true (v : value) : bool :=
  match v with
  | VBool true => true
  | _ => false
  end.

End Js.

Import Js.

(** ** getFileExtension *)

(** [filename.split(".").pop().toLowerCase()] *)
Definition getFileExtension (filename : string) : string :=
  match pop (split "." filename) with
  | Some ext => toLowerCase ext
  | None => EmptyString
  end.

(** The words of the specification: the substring after the last ["."] of
    the name, and the whole name when it has no ["."]. *)
Fixpoint has_dot (s : string) : bool :=
  match s with
  | EmptyString => false
  | String c s' => (Ascii.eqb c "." || has_dot s')%bool
  end.

Fixpoint after_last_dot (s : string) : string :=
  match s with
  | EmptyString => EmptyString
  | String c s' =>
      if has_dot s' then after_last_dot s'
      else if Ascii.eqb c "." then s'
      else String c s'
  end.

(** ** Quality and the palette-accuracy parameter *)

(** [Math.max(1, Math.min(100, quality))] *)
Definition normalizedQuality (quality : Z) : Z :=
  Z.max 1 (Z.min 100 quality).

(** [Math.max(1, Math.round((100 - normalizedQuality) / 20))] *)
Definition statsMode (quality : Z) : Z :=
  Z.max 1 (Math_round (inject_Z (100 - normalizedQuality quality) / 20)%Q).

(** ** Progress percentage *)

(** [Math.round(progress.ratio * 100)] *)
Definition percent (ratio : Q) : Z := Math_round (ratio * 100)%Q.

(** ** The capability probe *)

(** What the probe reads of the page it runs in: the global bindings
    [SharedArrayBuffer] and [WebAssembly] ([None] when the identifier is not
    declared) and the property [crossOriginIsolated] of [window]
    ([undefined] in a browser that does not know it). *)
Record host : Type := Host {
  SharedArrayBuffer : option value;
  WebAssembly : option value;
  crossOriginIsolated : value
}.

Definition checkBrowserSupport (h : host) : bool :=
  let hasSharedArrayBuffer :=
    negb (String.eqb (typeof_global (SharedArrayBuffer h)) "undefined") in
  let hasWebAssembly :=
    (String.eqb (typeof_global (WebAssembly h)) "object" &&
     match WebAssembly h with
     | Some wasm =>
         String.eqb (typeof (get_property wasm "instantiate")) "function"
     | None => false
     end)%bool in
  let isCrossOriginIsolated := strict_eq_true (crossOriginIsolated h) in
  (hasSharedArrayBuffer && hasWebAssembly && isCrossOriginIsolated)%bool.

(** The three conditions in the words of the specification. *)
Definition shared_memory_primitive (h : host) : Prop :=
  exists v, SharedArrayBuffer h = Some v /\ v <> VUndefined.

Definition wasm_execution_primitive (h : host) : Prop :=
  exists ns,
    WebAssembly h = Some (VObject ns) /\ get ns "instantiate" = VFunction.

Definition cross_origin_isolated (h : host) : Prop :=
  crossOriginIsolated h = VBool true.

(** ** The engine and the orchestrator's state *)

Definition bytes : Type := list Byte.byte.

(** The [File] handed to [convertToGif]. *)
Record File : Type := MkFile {
  name : string;
  content : bytes
}.

(** The result of a conversion: [new Blob([data.buffer], {type})]. *)
Record Blob : Type := MkBlob {
  blob_data : bytes;
  blob_type : string
}.

(** Calls made on the engine, in the order they are made. *)
Inductive engine_call : Type :=
| CLoad
| CWriteFile (path : string) (data : bytes)
| CRun (args : list string)
| CReadFile (path : string)
| CUnlink (path : string).

(** The external collaborator.  [bringup] is what [ffmpeg.load()] answers
    ([None]: loaded); [fetch] is [fetchFile]; [exec] is one [ffmpeg.run]:
    the progress ratios it reports while it runs, the file system it
    leaves, and the error it throws, if any; [fs_error] is what a file
    system call throws on a path that does not exist. *)
Record engine : Type := Engine {
  bringup : option exn;
  fetch : File -> exn + bytes;
  exec : list string -> gmap string bytes ->
         list Q * gmap string bytes * option exn;
  fs_error : string -> string -> exn
}.

(** The singleton [FFmpegUtils] instance.  [FS] is the virtual file system
    of [this.ffmpeg], empty when [createFFmpeg] makes the instance; [calls]
    and [delivered] record what reached the engine and what reached the
    progress callbacks (a callback is named by a number). *)
Record FFmpegUtils : Type := State {
  FS : gmap string bytes;
  isLoaded : bool;
  isLoading : bool;
  progressCallback : option nat;
  calls : list engine_call;
  delivered : list (nat * Z)
}.

(** [new FFmpegUtils()] *)
Definition constructor : FFmpegUtils :=
  State ∅ false false None [] [].

Definition set_FS (fs : gmap string bytes) (w : FFmpegUtils) : FFmpegUtils :=
  State fs (isLoaded w) (isLoading w) (progressCallback w) (calls w) (delivered w).

Definition set_isLoaded (b : bool) (w : FFmpegUtils) : FFmpegUtils :=
  State (FS w) b (isLoading w) (progressCallback w) (calls w) (delivered w).

Definition set_isLoading (b : bool) (w : FFmpegUtils) : FFmpegUtils :=
  State (FS w) (isLoaded w) b (progressCallback w) (calls w) (delivered w).

Definition set_progressCallback (cb : option nat) (w : FFmpegUtils) : FFmpegUtils :=
  State (FS w) (isLoaded w) (isLoading w) cb (calls w) (delivered w).

Definition record_call (c : engine_call) (w : FFmpegUtils) : FFmpegUtils :=
  State (FS w) (isLoaded w) (isLoading w) (progressCallback w)
        (calls w ++ [c]) (delivered w).

Definition deliver (cb : nat) (p : Z) (w : FFmpegUtils) : FFmpegUtils :=
  State (FS w) (isLoaded w) (isLoading w) (progressCallback w)
        (calls w) (delivered w ++ [(cb, p)]).

(** The [progress] handler given to [createFFmpeg]: it reads
    [this.progressCallback] when the event arrives. *)
Definition on_progress (ratio : Q) (w : FFmpegUtils) : FFmpegUtils :=
  match progressCallback w with
  | Some cb => deliver cb (percent ratio) w
  | None => w
  end.

(** The handler run on the progress events of one command, in order. *)
Definition report (ratios : list Q) (w : FFmpegUtils) : FFmpegUtils :=
  fold_left (fun u ratio => on_progress ratio u) ratios w.

(** How a promise stands when the call that made it has run as far as it
    can on its own: settled, or still pending. *)
Inductive settled (A : Type) : Type :=
| Resolved (a : A)
| Rejected (reason : exn).

Inductive promise (A : Type) : Type :=
| Settled (s : settled A)
| Pending.

Arguments Resolved {A} a.
Arguments Rejected {A} reason.
Arguments Settled {A} s.
Arguments Pending {A}.

(** ** Code that may throw

    The body of a [try] block runs on the state and either goes on with a
    value or throws; the state changes made before a throw stay. *)

Definition block (A : Type) : Type :=
  FFmpegUtils -> (exn + A) * FFmpegUtils.

#[export] Instance block_ret : MRet block :=
  fun A a w => (inr a, w).

#[export] Instance block_bind : MBind block :=
  fun A B k m w =>
    match m w with
    | (inl e, w') => (inl e, w')
    | (inr a, w') => k a w'
    end.

(** [try { return body } catch (error) { return handler(error) }] *)
Definition try_catch {A : Type} (body : block A) (handler : exn -> A)
    (w : FFmpegUtils) : A * FFmpegUtils :=
  match body w with
  | (inr a, w') => (a, w')
  | (inl error, w') => (handler error, w')
  end.

Section Orchestrator.

Context (E : engine).

(** [fetchFile(videoFile)] *)
Definition fetchFile (videoFile : File) : block bytes :=
  fun w => (fetch E videoFile, w).

(** [this.ffmpeg.FS("writeFile", path, data)] *)
Definition FS_writeFile (path : string) (data : bytes) : block unit :=
  fun w =>
    (inr tt, record_call (CWriteFile path data) (set_FS (<[path := data]> (FS w)) w)).

(** [this.ffmpeg.FS("readFile", path)] *)
Definition FS_readFile (path : string) : block bytes :=
  fun w =>
    let w' := record_call (CReadFile path) w in
    match FS w !! path with
    | Some data => (inr data, w')
    | None => (inl (fs_error E "readFile" path), w')
    end.

(** [this.ffmpeg.FS("unlink", path)] *)
Definition FS_unlink (path : string) : block unit :=
  fun w =>
    let w' := record_call (CUnlink path) w in
    match FS w !! path with
    | Some _ => (inr tt, set_FS (delete path (FS w)) w')
    | None => (inl (fs_error E "unlink" path), w')
    end.

(** [await this.ffmpeg.run(...args)]: the engine reports its progress to
    the handler while the command runs, then the command settles. *)
Definition run (args : list string) : block unit :=
  fun w =>
    let '(ratios, fs', thrown) := exec E args (FS w) in
    let w' := report ratios (record_call (CRun args) w) in
    let w'' := set_FS fs' w' in
    match thrown with
    | None => (inr tt, w'')
    | Some e => (inl e, w'')
    end.

(** *** load *)

(** Where a call of [load] stands after its synchronous part: settled at
    once, waiting on the 100 ms interval that looks at [isLoaded], or
    suspended at [await this.ffmpeg.load()]. *)
Inductive load_point : Type :=
| LoadDone (r : settled unit)
| LoadPolling
| LoadAwaiting.

(** [createFFmpeg({...})]: a new instance, with a file system of its own. *)
Definition createFFmpeg (w : FFmpegUtils) : FFmpegUtils :=
  set_FS ∅ w.

(** [load] up to its first suspension. *)
Definition load_enter (cb : option nat) (w : FFmpegUtils)
    : load_point * FFmpegUtils :=
  if isLoaded w then (LoadDone (Resolved tt), w)
  else if isLoading w then (LoadPolling, w)
  else
    let w1 := set_isLoading true w in
    let w2 := set_progressCallback cb w1 in
    let w3 := createFFmpeg w2 in
    (LoadAwaiting, record_call CLoad w3).

(** [load] from [await this.ffmpeg.load()] on, given what the engine
    answered. *)
Definition load_resume (answer : option exn) (w : FFmpegUtils)
    : settled unit * FFmpegUtils :=
  match answer with
  | None => (Resolved tt, set_isLoading false (set_isLoaded true w))
  | Some error => (Rejected error, set_isLoading false w)
  end.

(** One polling round of a waiting caller: [if (this.isLoaded) resolve()]. *)
Definition poll (w : FFmpegUtils) : load_point :=
  if isLoaded w then LoadDone (Resolved tt) else LoadPolling.

(** [load] run on its own against the engine [E]: a caller that finds
    [isLoading] set waits for a flag that no step of its own sets. *)
Definition load (cb : option nat) (w : FFmpegUtils)
    : promise unit * FFmpegUtils :=
  match load_enter cb w with
  | (LoadDone r, w') => (Settled r, w')
  | (LoadPolling, w') => (Pending, w')
  | (LoadAwaiting, w') =>
      let (r, w'') := load_resume (bringup E) w' in (Settled r, w'')
  end.

(** *** convertToGif *)

Definition inputFileName (videoFile : File) : string :=
  "input." +:+ getFileExtension (name videoFile).

Definition outputFileName : string := "output.gif".

(** The palette-generation command. *)
Definition palette_command (videoFile : File)
    (startTime duration outputWidth fps sm : Z) : list string :=
  [ "-ss"; toString startTime;
    "-t"; toString duration;
    "-i"; inputFileName videoFile;
    "-vf";
    "fps=" +:+ toString fps +:+ ",scale=" +:+ toString outputWidth +:+
      ":-1:flags=lanczos,palettegen=stats_mode=" +:+ toString sm;
    "palette.png" ].

(** The palette-application command. *)
Definition encode_command (videoFile : File)
    (startTime duration outputWidth fps : Z) : list string :=
  [ "-ss"; toString startTime;
    "-t"; toString duration;
    "-i"; inputFileName videoFile;
    "-i"; "palette.png";
    "-lavfi";
    "fps=" +:+ toString fps +:+ ",scale=" +:+ toString outputWidth +:+
      ":-1:flags=lanczos [x]; [x][1:v] paletteuse=dither=bayer:bayer_scale=5";
    "-loop"; "0";
    outputFileName ].

Definition invalid_range : exn :=
  Str "Invalid time range: end time must be greater than start time".

(** The second [try] block of [convertToGif]. *)
Definition conversion (videoFile : File)
    (startTime endTime outputWidth fps quality : Z) : block (settled Blob) :=
  data ← fetchFile videoFile;
  _ ← FS_writeFile (inputFileName videoFile) data;
  let duration := endTime - startTime in
  if duration <=? 0 then mret (Rejected invalid_range)
  else
    let sm := statsMode quality in
    _ ← run (palette_command videoFile startTime duration outputWidth fps sm);
    _ ← run (encode_command videoFile startTime duration outputWidth fps);
    data ← FS_readFile outputFileName;
    _ ← FS_unlink (inputFileName videoFile);
    _ ← FS_unlink "palette.png";
    _ ← FS_unlink outputFileName;
    mret (Resolved (MkBlob data "image/gif")).

(** What the two [catch] blocks reject with. *)
Definition load_failed (error : exn) : exn :=
  Str ("Failed to load FFmpeg: " +:+ message error).

Definition conversion_failed (error : exn) : exn :=
  Str ("Failed to convert video: " +:+ message error).

(** The second [try] statement, with its [catch]. *)
Definition convert_try (videoFile : File)
    (startTime endTime outputWidth fps quality : Z) (w : FFmpegUtils)
    : settled Blob * FFmpegUtils :=
  try_catch (conversion videoFile startTime endTime outputWidth fps quality)
            (fun error => Rejected (conversion_failed error)) w.

Definition convertToGif (videoFile : File)
    (startTime endTime outputWidth fps quality : Z)
    (conversionProgressCallback : option nat) (w : FFmpegUtils)
    : promise Blob * FFmpegUtils :=
  let w0 := set_progressCallback conversionProgressCallback w in
  let (loaded, w1) :=
    if isLoaded w0 then (Settled (Resolved tt), w0)
    else load (progressCallback w0) w0 in
  match loaded with
  | Pending => (Pending, w1)
  | Settled (Rejected error) => (Settled (Rejected (load_failed error)), w1)
  | Settled (Resolved _) =>
      let (r, w2) :=
        convert_try videoFile startTime endTime outputWidth fps quality w1 in
      (Settled r, w2)
  end.

(** A call site: an argument that is left out (or passed as [undefined])
    is [None] and takes the default of its parameter. *)
Record arguments : Type := Args {
  arg_startTime : option Z;
  arg_endTime : option Z;
  arg_outputWidth : option Z;
  arg_fps : option Z;
  arg_quality : option Z;
  arg_conversionProgressCallback : option nat
}.

Definition convertToGif_call (videoFile : File) (a : arguments)
    (w : FFmpegUtils) : promise Blob * FFmpegUtils :=
  convertToGif videoFile
    (default 0 (arg_startTime a))
    (default 10 (arg_endTime a))
    (default 480 (arg_outputWidth a))
    (default 10 (arg_fps a))
    (default 75 (arg_quality a))
    (arg_conversionProgressCallback a)
    w.

End Orchestrator.

(** ** Several callers of load on one page

    JavaScript runs one piece of code at a time.  Between two pieces, three
    things can happen to the callers of [load]: a new call is made, the
    engine settles the bring-up in flight, or the interval timers of the
    waiting callers fire. *)

Inductive event : Type :=
| EvLoad (cb : option nat)
| EvEngine (answer : option exn)
| EvTimer.

(** The singleton and, for each call of [load] so far, where it stands. *)
Record page : Type := Page {
  this : FFmpegUtils;
  callers : list load_point
}.

Definition is_awaiting (c : load_point) : bool :=
  match c with
  | LoadAwaiting => true
  | _ => false
  end.

Definition settle_awaiting (r : settled unit) (c : load_point) : load_point :=
  match c with
  | LoadAwaiting => LoadDone r
  | _ => c
  end.

Definition fire (w : FFmpegUtils) (c : load_point) : load_point :=
  match c with
  | LoadPolling => poll w
  | _ => c
  end.

Definition step (p : page) (ev : event) : page :=
  match ev with
  | EvLoad cb =>
      let (c, w') := load_enter cb (this p) in
      Page w' (callers p ++ [c])
  | EvEngine answer =>
      if existsb is_awaiting (callers p) then
        let (r, w') := load_resume answer (this p) in
        Page w' (map (settle_awaiting r) (callers p))
      else p
  | EvTimer => Page (this p) (map (fire (this p)) (callers p))
  end.

Definition run_events (p : page) (evs : list event) : page :=
  fold_left step evs p.

(** The page as it is loaded: a fresh singleton and no caller. *)
Definition fresh_page : page := Page constructor [].

Definition is_CLoad (c : engine_call) : bool :=
  match c with
  | CLoad => true
  | _ => false
  end.

Definition is_CRun (c : engine_call) : bool :=
  match c with
  | CRun _ => true
  | _ => false
  end.

Definition is_CWriteFile (c : engine_call) : bool :=
  match c with
  | CWriteFile _ _ => true
  | _ => false
  end.

(** Number of engine bring-ups started so far. *)
Definition bringups (w : FFmpegUtils) : nat :=
  length (List.filter is_CLoad (calls w)).

(** The commands the engine was given so far. *)
Definition commands (w : FFmpegUtils) : list engine_call :=
  List.filter is_CRun (calls w).

(** The staged-file writes made so far. *)
Definition writes (w : FFmpegUtils) : list engine_call :=
  List.filter is_CWriteFile (calls w).

(** ** Engines and files to run the model on *)

Module Demo.

Definition clip : File :=
  MkFile "Holiday.Clip.MP4" [Byte.x00; Byte.x01; Byte.x02].

Definition gif : bytes := [Byte.x47; Byte.x49; Byte.x46].

Definition boom : exn := Error "boom".

(** A command writes its last argument, reporting progress twice. *)
Definition exec_ok (args : list string) (fs : gmap string bytes)
    : list Q * gmap string bytes * option exn :=
  ([(1 # 4)%Q; (1 # 2)%Q], <[List.last args "" := gif]> fs, None).

(** A command that fails and leaves the file system as it found it. *)
Definition exec_fail (args : list string) (fs : gmap string bytes)
    : list Q * gmap string bytes * option exn :=
  ([], fs, Some boom).

Definition fetch_ok (f : File) : exn + bytes := inr (content f).

Definition enoent (op path : string) : exn := Error ("FS error").

Definition working : engine := Engine None fetch_ok exec_ok enoent.

Definition failing_command : engine := Engine None fetch_ok exec_fail enoent.

Definition failing_bringup : engine := Engine (Some boom) fetch_ok exec_ok enoent.

(** The singleton once the engine is loaded and nothing is staged. *)
Definition ready : FFmpegUtils := State ∅ true false None [CLoad] [].

End Demo.

(** What a conversion that runs through asks of the engine, in order. *)
Definition success_calls (videoFile : File)
    (startTime endTime outputWidth fps quality : Z) (data : bytes)
    : list engine_call :=
  [ CWriteFile (inputFileName videoFile) data;
    CRun (palette_command videoFile startTime (endTime - startTime)
            outputWidth fps (statsMode quality));
    CRun (encode_command videoFile startTime (endTime - startTime)
            outputWidth fps);
    CReadFile outputFileName;
    CUnlink (inputFileName videoFile);
    CUnlink "palette.png";
    CUnlink outputFileName ].

(** The state in which the second [try] statement starts, when the first
    one lets the call through: the engine was loaded already, or this call
    brought it up. *)
Definition staging_state (E : engine) (cb : option nat) (w : FFmpegUtils)
    : option FFmpegUtils :=
  let w0 := set_progressCallback cb w in
  if isLoaded w0 then Some w0
  else match load E cb w0 with
       | (Settled (Resolved _), w1) => Some w1
       | _ => None
       end.

(** An engine that encodes: when a command whose last argument is the
    output name succeeds, the file it leaves there is not empty. *)
Definition writes_its_output (E : engine) : Prop :=
  forall args fs ratios fs',
    exec E args fs = (ratios, fs', None) ->
    List.last args "" = outputFileName ->
    fs' !! outputFileName <> Some [].

(** ** What a conversion can do to the singleton *)

(** [advances w w']: from [w] to [w'] the flags and the callback are the
    same, the engine was asked things other than a bring-up, and whatever
    was delivered went to the callback that [w] holds. *)
Definition advances (w w' : FFmpegUtils) : Prop :=
  isLoaded w' = isLoaded w /\
  isLoading w' = isLoading w /\
  progressCallback w' = progressCallback w /\
  (exists cs, calls w' = (calls w ++ cs)%list /\
              Forall (fun c => is_CLoad c = false) cs) /\
  (exists ds, delivered w' = (delivered w ++ ds)%list /\
              Forall (fun d => progressCallback w = Some d.1) ds).

(** A block all of whose runs advance the state. *)
Definition advancing {A : Type} (m : block A) : Prop :=
  forall w, advances w (m w).2.

(** More engines to run the model on. *)
Module Sample.

(** An engine for which [fetchFile] fails. *)
Definition unreadable : engine :=
  Engine None (fun _ => inl (Error "read failed")) Demo.exec_ok Demo.enoent.

(** A command that succeeds and writes nothing: neither the palette nor the
    output appears. *)
Definition exec_idle (args : list string) (fs : gmap string bytes)
    : list Q * gmap string bytes * option exn :=
  ([], fs, None).

Definition idle : engine := Engine None Demo.fetch_ok exec_idle Demo.enoent.

End Sample.

(** Number of callers suspended at [await this.ffmpeg.load()]. *)
Definition in_flight (p : page) : nat :=
  length (List.filter is_awaiting (callers p)).

(** The flags and the callers agree: a caller is suspended at the bring-up
    exactly while [isLoading] is set, there is never more than one, and
    [isLoaded] and [isLoading] are never set together. *)
Definition coherent (p : page) : Prop :=
  in_flight p = (if isLoading (this p) then 1 else 0)%nat /\
  (isLoaded (this p) && isLoading (this p) = false)%bool.

(** ** VideoUploader *)

(** What [validateFile] reads of a [File]: its MIME type and its size in
    bytes. *)
Record picked : Type := Picked {
  picked_type : string;
  picked_size : Z
}.

(** The state of the component. *)
Record uploader : Type := Uploader {
  isDragging : bool;
  upload_error : string
}.

Definition supportedFormats : list string := ["video/mp4"; "video/webm"].

(** [100 * 1024 * 1024] *)
Definition maxSize : Z := 100 * 1024 * 1024.

(** [validateFile(file)]: the verdict and the error it sets. *)
Definition validateFile (file : picked) : bool * string :=
  if negb (String.prefix "video/" (picked_type file)) then
    (false, "Please upload a video file (MP4 or WebM)")
  else if negb (existsb (String.eqb (picked_type file)) supportedFormats) then
    (false, "Only MP4 and WebM formats are supported")
  else if picked_size file >? maxSize then
    (false, "File size must be less than 100MB")
  else (true, "").

(** [handleFile(file)]: the file handed to [onVideoSelect], if any. *)
Definition handleFile (file : picked) (u : uploader) : option picked * uploader :=
  let (ok, error) := validateFile file in
  (if ok then Some file else None, Uploader (isDragging u) error).

(** [handleDrop(e)], [files] being [e.dataTransfer.files]. *)
Definition handleDrop (disabled : bool) (files : list picked) (u : uploader)
    : option picked * uploader :=
  let u1 := Uploader false (upload_error u) in
  if disabled then (None, u1)
  else match files with
       | file :: _ => handleFile file u1
       | [] => (None, u1)
       end.

(** [handleFileInput(e)], [files] being [e.target.files]. *)
Definition handleFileInput (files : list picked) (u : uploader)
    : option picked * uploader :=
  match files with
  | file :: _ => handleFile file u
  | [] => (None, u)
  end.

(** ** App: handleConvert *)

(** [err.message] as a value: a string has no such property. *)
Definition message_property (err : exn) : option string :=
  match err with
  | Error m => Some m
  | Str _ => None
  end.

(** [v || fallback] for a string or [undefined]: the empty string is falsy
    too. *)
Definition or_else (v : option string) (fallback : string) : string :=
  match v with
  | Some EmptyString => fallback
  | Some m => m
  | None => fallback
  end.

(** The state of [App] that [handleConvert] reads and writes.  The object
    URL made of the blob is modelled by the blob. *)
Record App : Type := MkApp {
  app_videoFile : option File;
  app_timeRange : Z * Z;
  app_isConverting : bool;
  app_gifUrl : option Blob;
  app_error : string;
  app_conversionProgress : Z;
  app_isBrowserSupported : bool
}.

Definition set_app_error (msg : string) (a : App) : App :=
  MkApp (app_videoFile a) (app_timeRange a) (app_isConverting a) (app_gifUrl a)
        msg (app_conversionProgress a) (app_isBrowserSupported a).

Definition conversion_fallback : string :=
  "Failed to convert video to GIF. Check console for details.".

(** The last percentage that the callback [cb] was given among [ds], and
    [p0] when it was given none. *)
Definition last_progress (cb : nat) (p0 : Z) (ds : list (nat * Z)) : Z :=
  List.last (map snd (List.filter (fun d => Nat.eqb d.1 cb) ds)) p0.

(** [handleConvert()], the progress callback of the call being [cb]. *)
Definition handleConvert (E : engine) (cb : nat) (a : App) (w : FFmpegUtils)
    : App * FFmpegUtils :=
  if negb (app_isBrowserSupported a) then
    (set_app_error
       "Cannot convert: Browser not fully supported. Please check the compatibility message above."
       a, w)
  else match app_videoFile a with
  | None => (set_app_error "Please select a video first." a, w)
  | Some file =>
      let (startTime, endTime) := app_timeRange a in
      if endTime <=? startTime then
        (set_app_error "End time must be after start time for GIF conversion." a, w)
      else
        let (p, w') := convertToGif E file startTime endTime 480 10 75 (Some cb) w in
        let progress :=
          last_progress cb 0 (drop (length (delivered w)) (delivered w')) in
        let running :=
          MkApp (app_videoFile a) (app_timeRange a) true None "" progress
                (app_isBrowserSupported a) in
        match p with
        | Pending => (running, w')
        | Settled (Resolved gifBlob) =>
            (MkApp (app_videoFile a) (app_timeRange a) false (Some gifBlob) ""
                   progress (app_isBrowserSupported a), w')
        | Settled (Rejected err) =>
            (MkApp (app_videoFile a) (app_timeRange a) false None
                   (or_else (message_property err) conversion_fallback)
                   progress (app_isBrowserSupported a), w')
        end
  end.

Module SampleApp.

(** [App] with the clip selected and the range from 2 to 7 seconds. *)
Definition selected : App :=
  MkApp (Some Demo.clip) (2, 7) false None "" 0 true.

(** The same with an empty range. *)
Definition empty_range : App :=
  MkApp (Some Demo.clip) (5, 5) false None "" 0 true.

End SampleApp.

(** ** Times as text: formatTime and parseTimeString *)

Module JsText.

(** The white space [parseInt] skips, among the ASCII characters. *)
Definition is_space (c : ascii) : bool :=
  let n := nat_of_ascii c in
  (Nat.eqb n 32 || (Nat.leb 9 n && Nat.leb n 13))%bool.

Fixpoint skip_spaces (s : string) : string :=
  match s with
  | EmptyString => EmptyString
  | String c s' => if is_space c then skip_spaces s' else s
  end.

Definition digit_of (c : ascii) : option Z :=
  let n := nat_of_ascii c in
  if (Nat.leb 48 n && Nat.leb n 57)%bool then Some (Z.of_nat (n - 48)) else None.

(** The number written by the longest prefix of decimal digits, [None]
    ([NaN]) when there is no digit. *)
Fixpoint digits (acc : Z) (seen : bool) (s : string) : option Z :=
  match s with
  | EmptyString => if seen then Some acc else None
  | String c s' =>
      match digit_of c with
      | Some d => digits (acc * 10 + d) true s'
      | None => if seen then Some acc else None
      end
  end.

(** [parseInt(s, 10)]: leading white space, an optional sign, then digits;
    what follows the digits is ignored. *)
Definition parseInt (s : string) : option Z :=
  match skip_spaces s with
  | String c s' =>
      if Ascii.eqb c "-" then Z.opp <$> digits 0 false s'
      else if Ascii.eqb c "+" then digits 0 false s'
      else digits 0 false (String c s')
  | EmptyString => None
  end.

Fixpoint zeros (n : nat) : string :=
  match n with
  | O => EmptyString
  | S n' => String "0" (zeros n')
  end.

(** [s.padStart(n, "0")] *)
Definition padStart (n : nat) (s : string) : string :=
  zeros (n - String.length s) +:+ s.

(** [s.includes(c)] for a one-character string. *)
Fixpoint includes (c : ascii) (s : string) : bool :=
  match s with
  | EmptyString => false
  | String c' s' => (Ascii.eqb c' c || includes c s')%bool
  end.

End JsText.

Import JsText.

(** [formatTime(timeInSeconds, includeMilliseconds)] on a whole number of
    seconds; [None] is [NaN].  [Math.floor(t / 60)] is the floor quotient,
    [t % 60] and [t % 1] have the sign of [t]. *)
Definition formatTime (timeInSeconds : option Z) (includeMilliseconds : bool)
    : string :=
  match timeInSeconds with
  | None => "00:00"
  | Some t =>
      let minutes := t / 60 in
      let seconds := Z.rem t 60 in
      if includeMilliseconds then
        let milliseconds := Z.rem t 1 * 1000 in
        padStart 2 (toString minutes) +:+ ":" +:+ padStart 2 (toString seconds)
          +:+ "." +:+ padStart 3 (toString milliseconds)
      else
        padStart 2 (toString minutes) +:+ ":" +:+ padStart 2 (toString seconds)
  end.

(** Arithmetic on numbers that may be [NaN] ([None]). *)
Definition num_add (a b : option Q) : option Q :=
  match a, b with
  | Some x, Some y => Some (x + y)%Q
  | _, _ => None
  end.

Definition num_mul (a b : option Q) : option Q :=
  match a, b with
  | Some x, Some y => Some (x * y)%Q
  | _, _ => None
  end.

Definition num_div (a b : option Q) : option Q :=
  match a, b with
  | Some x, Some y => Some (x / y)%Q
  | _, _ => None
  end.

Definition num_of_int (a : option Z) : option Q := inject_Z <$> a.

(** [parseTimeString(timeString)] *)
Definition parseTimeString (timeString : string) : option Q :=
  if String.eqb timeString "" then Some 0%Q
  else
    let parts := split ":" timeString in
    if negb (Nat.eqb (length parts) 2) then Some 0%Q
    else
      let minutes := num_of_int (parseInt (nth 0 parts "")) in
      let seconds :=
        if includes "." (nth 1 parts "") then
          let secondParts := split "." (nth 1 parts "") in
          let seconds := num_of_int (parseInt (nth 0 secondParts "")) in
          let milliseconds := num_of_int (parseInt (nth 1 secondParts "")) in
          num_add seconds (num_div milliseconds (Some 1000%Q))
        else num_of_int (parseInt (nth 1 parts "")) in
      num_add (num_mul minutes (Some 60%Q)) seconds.

(** Strings of decimal digits and the number they write. *)
Fixpoint all_digits (s : string) : bool :=
  match s with
  | EmptyString => true
  | String c s' =>
      match digit_of c with
      | Some _ => all_digits s'
      | None => false
      end
  end.

Fixpoint decimal (s : string) : Z :=
  match s with
  | EmptyString => 0
  | String c s' =>
      default 0 (digit_of c) * 10 ^ Z.of_nat (String.length s') + decimal s'
  end.

(** Number of occurrences of a character. *)
Fixpoint count_char (c : ascii) (s : string) : nat :=
  match s with
  | EmptyString => O
  | String c' s' => ((if Ascii.eqb c' c then 1 else 0) + count_char c s')%nat
  end.

(** ** TimeRangeSelector: the range and its handlers *)

(** The two pieces of state of the component.  A time is a rational; a
    value that may be [NaN] is an [option]. *)
Record selector : Type := Selector {
  sel_startTime : Q;
  sel_endTime : Q
}.

(** [x < y] and [x <= y] on numbers; with [NaN] on a side a comparison is
    false. *)
Definition Qltb (x y : Q) : bool :=
  Qnum x * QDen y <? Qnum y * QDen x.

Definition num_lt (a b : option Q) : bool :=
  match a, b with
  | Some x, Some y => Qltb x y
  | _, _ => false
  end.

Definition num_le (a b : option Q) : bool :=
  match a, b with
  | Some x, Some y => Qle_bool x y
  | _, _ => false
  end.

(** The state at the first render: [useState(0)], [useState(videoDuration)]. *)
Definition mount (videoDuration : Q) : selector := Selector 0 videoDuration.

(** The effect on [videoDuration]: [if (videoDuration > 0)
    setEndTime(videoDuration)]. *)
Definition on_duration (videoDuration : Q) (st : selector) : selector :=
  if Qltb 0 videoDuration then Selector (sel_startTime st) videoDuration else st.

(** The handlers of the two sliders, [n] being [parseFloat(e.target.value)]. *)
Definition handleStartSliderChange (n : option Q) (st : selector) : selector :=
  match n with
  | Some newStartTime =>
      if num_lt n (Some (sel_endTime st))
      then Selector newStartTime (sel_endTime st) else st
  | None => st
  end.

Definition handleEndSliderChange (videoDuration : Q) (n : option Q)
    (st : selector) : selector :=
  match n with
  | Some newEndTime =>
      if (num_lt (Some (sel_startTime st)) n && num_le n (Some videoDuration))%bool
      then Selector (sel_startTime st) newEndTime else st
  | None => st
  end.

(** The handlers of the two text fields. *)
Definition handleStartTimeChange (value : string) (st : selector) : selector :=
  handleStartSliderChange (parseTimeString value) st.

Definition handleEndTimeChange (videoDuration : Q) (value : string)
    (st : selector) : selector :=
  handleEndSliderChange videoDuration (parseTimeString value) st.

(** The effect that tells the parent: the range passed to
    [onTimeRangeChange], if any. *)
Definition notify (videoDuration : Q) (st : selector) : option (Q * Q) :=
  if (Qle_bool 0 (sel_startTime st) && Qltb (sel_startTime st) (sel_endTime st)
      && Qle_bool (sel_endTime st) videoDuration)%bool
  then Some (sel_startTime st, sel_endTime st) else None.

(** What the user can do to the range. *)
Inductive edit : Type :=
| StartText (value : string)
| EndText (value : string)
| StartSlider (n : option Q)
| EndSlider (n : option Q).

Definition apply_edit (videoDuration : Q) (st : selector) (ed : edit) : selector :=
  match ed with
  | StartText value => handleStartTimeChange value st
  | EndText value => handleEndTimeChange videoDuration value st
  | StartSlider n => handleStartSliderChange n st
  | EndSlider n => handleEndSliderChange videoDuration n st
  end.

Definition apply_edits (videoDuration : Q) (st : selector) (eds : list edit)
    : selector :=
  fold_left (apply_edit videoDuration) eds st.

(** ** Properties of the JavaScript primitives *)

Section Strings.

Lemma split_nonempty sep s : split sep s <> [].
Proof.
  destruct s as [|c s]; simpl; [discriminate|].
  destruct (Ascii.eqb c sep); [discriminate|].
  destruct (split sep s); discriminate.
Qed.

Lemma pop_cons x l : l <> [] -> pop (x :: l) = pop l.
Proof. destruct l; [congruence | reflexivity]. Qed.

Lemma split_no_dot s : has_dot s = false -> split "." s = [s].
Proof.
  induction s as [|c s IH]; simpl; [reflexivity|].
  intros H. apply orb_false_iff in H as [Hc Hs].
  rewrite Hc, (IH Hs). reflexivity.
Qed.

Lemma split_dot_many s :
  has_dot s = true -> exists piece rest, split "." s = piece :: rest /\ rest <> [].
Proof.
  induction s as [|c s IH]; simpl; [discriminate|].
  destruct (Ascii.eqb c ".") eqn:Hc; simpl; intros H.
  - exists EmptyString, (split "." s). split; [reflexivity | apply split_nonempty].
  - destruct (IH H) as (piece & rest & -> & Hne).
    exists (String c piece), rest. split; [reflexivity | exact Hne].
Qed.

Lemma after_last_dot_no_dot s : has_dot s = false -> after_last_dot s = s.
Proof.
  destruct s as [|c s]; simpl; [reflexivity|].
  intros H. apply orb_false_iff in H as [Hc Hs].
  rewrite Hs, Hc. reflexivity.
Qed.

Lemma pop_split s : pop (split "." s) = Some (after_last_dot s).
Proof.
  induction s as [|c s IH]; [reflexivity|].
  cbn [split after_last_dot].
  destruct (Ascii.eqb c ".") eqn:Hc.
  - rewrite pop_cons by apply split_nonempty. rewrite IH.
    destruct (has_dot s) eqn:Hs; [reflexivity|].
    rewrite after_last_dot_no_dot by exact Hs. reflexivity.
  - destruct (has_dot s) eqn:Hs.
    + destruct (split_dot_many s Hs) as (piece & rest & Heq & Hne).
      rewrite Heq in IH |- *. rewrite pop_cons in IH |- * by exact Hne.
      exact IH.
    + rewrite (split_no_dot s Hs). reflexivity.
Qed.

Lemma after_last_dot_clean s : has_dot (after_last_dot s) = false.
Proof.
  induction s as [|c s IH]; [reflexivity|].
  cbn [after_last_dot].
  destruct (has_dot s) eqn:Hs; [exact IH|].
  destruct (Ascii.eqb c ".") eqn:Hc; [exact Hs|].
  simpl. rewrite Hc, Hs. reflexivity.
Qed.

Lemma after_last_dot_suffix s :
  has_dot s = true -> exists pre, s = pre +:+ "." +:+ after_last_dot s.
Proof.
  induction s as [|c s IH]; [discriminate|].
  cbn [has_dot after_last_dot]. intros H.
  destruct (has_dot s) eqn:Hs.
  - destruct (IH eq_refl) as [pre Hpre].
    exists (String c pre). rewrite Hpre at 1. reflexivity.
  - rewrite orb_false_r in H. rewrite H.
    exists EmptyString. apply Ascii.eqb_eq in H. rewrite H. reflexivity.
Qed.

End Strings.


Example staged_input_name_examples :
  inputFileName (MkFile "Holiday.Clip.MP4" []) = "input.mp4" /\
  inputFileName (MkFile "README" []) = "input.readme" /\
  inputFileName (MkFile "archive." []) = "input.".
Proof. repeat split; reflexivity. Qed.

Section Rounding.

Lemma Math_round_nearest (x : Q) :
  (inject_Z (Math_round x) - (1 # 2) <= x /\ x < inject_Z (Math_round x) + (1 # 2))%Q.
Proof.
  unfold Math_round.
  pose proof (Qfloor_le (x + (1 # 2))) as Hle.
  pose proof (Qlt_floor (x + (1 # 2))) as Hlt.
  rewrite inject_Z_plus in Hlt. change (inject_Z 1) with 1%Q in Hlt.
  set (n := inject_Z (Qfloor (x + (1 # 2)))) in *.
  split; lra.
Qed.

Lemma percent_range ratio :
  (0 <= ratio)%Q -> (ratio <= 1)%Q -> 0 <= percent ratio <= 100.
Proof.
  intros H0 H1. unfold percent, Math_round. split.
  - apply (Qfloor_resp_le 0). lra.
  - apply Z.le_trans with (Qfloor (100 + (1 # 2))%Q).
    + apply Qfloor_resp_le. lra.
    + apply Z.leb_le. reflexivity.
Qed.

End Rounding.

Section Quality.

Lemma Math_round_twentieth (a : Z) :
  Math_round (inject_Z a / 20)%Q = (a + 10) / 20.
Proof.
  unfold Math_round, Qfloor, Qdiv, Qmult, Qplus, Qinv, inject_Z; simpl.
  Z.to_euclidean_division_equations. lia.
Qed.

Lemma normalizedQuality_range q : 1 <= normalizedQuality q <= 100.
Proof. unfold normalizedQuality. lia. Qed.

Lemma normalizedQuality_idem q :
  normalizedQuality (normalizedQuality q) = normalizedQuality q.
Proof. unfold normalizedQuality. lia. Qed.

Lemma statsMode_clamped q : statsMode (normalizedQuality q) = statsMode q.
Proof. unfold statsMode. rewrite normalizedQuality_idem. reflexivity. Qed.

End Quality.

Lemma conversion_clamped E f s e W fps q :
  conversion E f s e W fps (normalizedQuality q) = conversion E f s e W fps q.
Proof. unfold conversion. rewrite statsMode_clamped. reflexivity. Qed.

(** C4.  Every quality, in range or not, is clamped into [1,100] and the
    conversion goes on as with the clamped value instead of rejecting;
    [statsMode] is the larger of 1 and the integer nearest to
    [(100 - clamped) / 20] (a tie going up), which lies in [1,5]; quality 75
    gives 1, quality 1 gives 5 and quality 100 gives 1. *)
Theorem quality_clamped_statsMode (quality : Z) :
  1 <= normalizedQuality quality <= 100 /\
  normalizedQuality quality =
    (if quality <? 1 then 1 else if 100 <? quality then 100 else quality) /\
  (exists r, statsMode quality = Z.max 1 r /\
             20 * r - 10 <= 100 - normalizedQuality quality < 20 * r + 10) /\
  1 <= statsMode quality <= 5 /\
  (forall E f s e W fps cb w,
      convertToGif E f s e W fps quality cb w =
      convertToGif E f s e W fps (normalizedQuality quality) cb w) /\
  statsMode 75 = 1 /\ statsMode 1 = 5 /\ statsMode 100 = 1.
Proof.
  pose proof (normalizedQuality_range quality) as Hr.
  assert (Hs : statsMode quality = Z.max 1 ((100 - normalizedQuality quality + 10) / 20)).
  { unfold statsMode. rewrite Math_round_twentieth. reflexivity. }
  repeat split; try reflexivity; try lia.
  - unfold normalizedQuality.
    destruct (Z.ltb_spec quality 1); [lia|].
    destruct (Z.ltb_spec 100 quality); lia.
  - exists ((100 - normalizedQuality quality + 10) / 20). split; [exact Hs|].
    Z.to_euclidean_division_equations. lia.
  - rewrite Hs. Z.to_euclidean_division_equations. lia.
  - intros. unfold convertToGif, convert_try. rewrite conversion_clamped. reflexivity.
Qed.

Lemma typeof_undefined v : String.eqb (typeof v) "undefined" = true <-> v = VUndefined.
Proof. destruct v; simpl; split; intros H; try discriminate; reflexivity. Qed.

Lemma typeof_function v : String.eqb (typeof v) "function" = true <-> v = VFunction.
Proof. destruct v; simpl; split; intros H; try discriminate; reflexivity. Qed.

Lemma strict_eq_true_spec v : strict_eq_true v = true <-> v = VBool true.
Proof. destruct v as [|[]| | | |]; simpl; split; intros H; try discriminate; reflexivity. Qed.


(** ** The state left by the steps of a conversion *)

Section Frame.

Context (w : FFmpegUtils).

Lemma FS_record_call c : FS (record_call c w) = FS w.
Proof. reflexivity. Qed.

Lemma FS_set_FS fs : FS (set_FS fs w) = fs.
Proof. reflexivity. Qed.

Lemma calls_record_call c : calls (record_call c w) = (calls w ++ [c])%list.
Proof. reflexivity. Qed.

Lemma calls_set_FS fs : calls (set_FS fs w) = calls w.
Proof. reflexivity. Qed.

Lemma delivered_record_call c : delivered (record_call c w) = delivered w.
Proof. reflexivity. Qed.

Lemma delivered_set_FS fs : delivered (set_FS fs w) = delivered w.
Proof. reflexivity. Qed.

Lemma isLoaded_record_call c : isLoaded (record_call c w) = isLoaded w.
Proof. reflexivity. Qed.

Lemma isLoaded_set_FS fs : isLoaded (set_FS fs w) = isLoaded w.
Proof. reflexivity. Qed.

Lemma isLoading_record_call c : isLoading (record_call c w) = isLoading w.
Proof. reflexivity. Qed.

Lemma isLoading_set_FS fs : isLoading (set_FS fs w) = isLoading w.
Proof. reflexivity. Qed.

Lemma progressCallback_record_call c :
  progressCallback (record_call c w) = progressCallback w.
Proof. reflexivity. Qed.

Lemma progressCallback_set_FS fs :
  progressCallback (set_FS fs w) = progressCallback w.
Proof. reflexivity. Qed.

End Frame.

Create Rewrite HintDb frame.

#[export] Hint Rewrite FS_record_call FS_set_FS calls_record_call calls_set_FS
  delivered_record_call delivered_set_FS isLoaded_record_call isLoaded_set_FS
  isLoading_record_call isLoading_set_FS progressCallback_record_call
  progressCallback_set_FS : frame.

Lemma on_progress_frame ratio w :
  FS (on_progress ratio w) = FS w /\
  isLoaded (on_progress ratio w) = isLoaded w /\
  isLoading (on_progress ratio w) = isLoading w /\
  progressCallback (on_progress ratio w) = progressCallback w /\
  calls (on_progress ratio w) = calls w.
Proof.
  unfold on_progress.
  destruct (progressCallback w) eqn:Hcb; repeat split; try reflexivity; exact Hcb.
Qed.

Lemma report_frame ratios w :
  FS (report ratios w) = FS w /\
  isLoaded (report ratios w) = isLoaded w /\
  isLoading (report ratios w) = isLoading w /\
  progressCallback (report ratios w) = progressCallback w /\
  calls (report ratios w) = calls w.
Proof.
  revert w. induction ratios as [|r rs IH]; intros w; [repeat split; reflexivity|].
  simpl. destruct (IH (on_progress r w)) as (-> & -> & -> & -> & ->).
  apply on_progress_frame.
Qed.

Lemma report_delivered ratios w :
  delivered (report ratios w) =
  (delivered w ++
    match progressCallback w with
    | Some cb => map (fun ratio => (cb, percent ratio)) ratios
    | None => []
    end)%list.
Proof.
  revert w. induction ratios as [|r rs IH]; intros w; simpl.
  - destruct (progressCallback w); rewrite app_nil_r; reflexivity.
  - rewrite IH. destruct (on_progress_frame r w) as (_ & _ & _ & -> & _).
    unfold on_progress. destruct (progressCallback w) as [cb|]; simpl.
    + rewrite <- app_assoc. reflexivity.
    + reflexivity.
Qed.

Section Conversion.

Context (E : engine) (f : File) (s e W fps q : Z).

(** One command: what it leaves in the state. *)
Lemma run_calls args w r w' :
  run E args w = (r, w') ->
  calls w' = (calls w ++ [CRun args])%list /\
  FS w' = (exec E args (FS w)).1.2 /\
  isLoaded w' = isLoaded w /\ isLoading w' = isLoading w /\
  progressCallback w' = progressCallback w /\
  delivered w' =
    (delivered w ++
     match progressCallback w with
     | Some cb => map (fun ratio => (cb, percent ratio)) (exec E args (FS w)).1.1
     | None => []
     end)%list /\
  r = match (exec E args (FS w)).2 with
      | None => inr tt
      | Some err => inl err
      end.
Proof.
  unfold run. destruct (exec E args (FS w)) as [[ratios fs'] thrown]. simpl.
  intros H.
  assert (w' = set_FS fs' (report ratios (record_call (CRun args) w))) as ->.
  { destruct thrown; congruence. }
  destruct (report_frame ratios (record_call (CRun args) w)) as (HF & HL & HG & HP & HC).
  simpl. rewrite HL, HG, HP, HC, report_delivered. simpl.
  repeat split; try reflexivity.
  destruct thrown; congruence.
Qed.

(** A conversion that resolves went through every step. *)
Lemma convert_try_resolved w blob w' :
  convert_try E f s e W fps q w = (Resolved blob, w') ->
  exists data r1 fs1 r2 fs2 out,
    fetch E f = inr data /\
    0 < e - s /\
    exec E (palette_command f s (e - s) W fps (statsMode q))
         (<[inputFileName f := data]> (FS w)) = (r1, fs1, None) /\
    exec E (encode_command f s (e - s) W fps) fs1 = (r2, fs2, None) /\
    fs2 !! outputFileName = Some out /\
    blob = MkBlob out "image/gif" /\
    FS w' = delete outputFileName (delete "palette.png" (delete (inputFileName f) fs2)) /\
    calls w' = (calls w ++ success_calls f s e W fps q data)%list /\
    delivered w' =
      (delivered w ++
       match progressCallback w with
       | Some cb => map (fun ratio => (cb, percent ratio)) (r1 ++ r2)
       | None => []
       end)%list /\
    isLoaded w' = isLoaded w /\ isLoading w' = isLoading w /\
    progressCallback w' = progressCallback w.
Proof.
  unfold convert_try, try_catch, conversion, mbind, block_bind, mret, block_ret,
    fetchFile, FS_writeFile.
  destruct (fetch E f) as [err|data] eqn:Hfetch; [discriminate|].
  destruct (Z.leb_spec (e - s) 0) as [Hle|Hlt]; [discriminate|].
  set (w0 := record_call _ _).
  destruct (run E (palette_command f s (e - s) W fps (statsMode q)) w0)
    as [[err|[]] w1] eqn:Hrun1; [discriminate|].
  destruct (run E (encode_command f s (e - s) W fps) w1)
    as [[err|[]] w2] eqn:Hrun2; [discriminate|].
  apply run_calls in Hrun1 as (Hc1 & Hf1 & Hl1 & Hg1 & Hp1 & Hd1 & Hr1).
  apply run_calls in Hrun2 as (Hc2 & Hf2 & Hl2 & Hg2 & Hp2 & Hd2 & Hr2).
  destruct (exec E (palette_command f s (e - s) W fps (statsMode q)) (FS w0))
    as [[r1 fs1] [err|]] eqn:He1; [discriminate|].
  destruct (exec E (encode_command f s (e - s) W fps) (FS w1))
    as [[r2 fs2] [err|]] eqn:He2; [discriminate|].
  simpl in *. clear Hr1 Hr2.
  unfold FS_readFile, FS_unlink. autorewrite with frame. rewrite Hf2.
  destruct (fs2 !! outputFileName) as [out|] eqn:Hout; [|discriminate].
  autorewrite with frame. rewrite Hf2.
  destruct (fs2 !! inputFileName f) as [x|] eqn:Hin; [|discriminate].
  autorewrite with frame.
  destruct (delete (inputFileName f) fs2 !! "palette.png") as [y|] eqn:Hpal; [|discriminate].
  autorewrite with frame.
  destruct (delete "palette.png" (delete (inputFileName f) fs2) !! outputFileName)
    as [z|] eqn:Hout'; [|discriminate].
  intros H. injection H as <- <-. autorewrite with frame.
  exists data, r1, fs1, r2, fs2, out.
  rewrite Hf1 in He2.
  repeat split; try reflexivity; try assumption.
  - rewrite Hc2, Hc1. subst w0. simpl. rewrite <- !app_assoc. reflexivity.
  - rewrite Hd2, Hd1, Hp1. subst w0. simpl.
    destruct (progressCallback w); rewrite <- ?app_assoc, ?map_app; reflexivity.
  - rewrite Hl2, Hl1. reflexivity.
  - rewrite Hg2, Hg1. reflexivity.
  - rewrite Hp2, Hp1. reflexivity.
Qed.

(** With an empty or negative range the second [try] statement stops after
    staging. *)
Lemma convert_try_invalid_range w data :
  e - s <= 0 ->
  fetch E f = inr data ->
  convert_try E f s e W fps q w =
  (Rejected invalid_range,
   record_call (CWriteFile (inputFileName f) data)
     (set_FS (<[inputFileName f := data]> (FS w)) w)).
Proof.
  intros Hrange Hfetch.
  unfold convert_try, try_catch, conversion, mbind, block_bind, mret, block_ret,
    fetchFile, FS_writeFile.
  rewrite Hfetch.
  destruct (Z.leb_spec (e - s) 0) as [_|Hlt]; [reflexivity | lia].
Qed.

Lemma convert_try_invalid_range_commands w :
  e - s <= 0 ->
  commands (convert_try E f s e W fps q w).2 = commands w.
Proof.
  intros Hrange.
  destruct (fetch E f) as [err|data] eqn:Hfetch.
  - unfold convert_try, try_catch, conversion, mbind, block_bind, fetchFile.
    rewrite Hfetch. reflexivity.
  - rewrite (convert_try_invalid_range w data Hrange Hfetch).
    unfold commands. simpl. rewrite List.filter_app. simpl. apply app_nil_r.
Qed.

(** The first [try] statement: how the call gets to staging. *)
Lemma convertToGif_staged cb w w1 :
  staging_state E cb w = Some w1 ->
  convertToGif E f s e W fps q cb w =
  (Settled (convert_try E f s e W fps q w1).1, (convert_try E f s e W fps q w1).2).
Proof.
  unfold staging_state, convertToGif.
  destruct (isLoaded (set_progressCallback cb w)).
  - intros [= <-]. destruct (convert_try _ _ _ _ _ _ _ _); reflexivity.
  - simpl (progressCallback (set_progressCallback cb w)).
    destruct (load E cb (set_progressCallback cb w)) as [[[[]|err]|] w2];
      try discriminate.
    intros [= <-]. destruct (convert_try _ _ _ _ _ _ _ _); reflexivity.
Qed.

Lemma convertToGif_resolved cb w blob w' :
  convertToGif E f s e W fps q cb w = (Settled (Resolved blob), w') ->
  exists w1, staging_state E cb w = Some w1 /\
             convert_try E f s e W fps q w1 = (Resolved blob, w').
Proof.
  unfold staging_state, convertToGif.
  destruct (isLoaded (set_progressCallback cb w)).
  - destruct (convert_try _ _ _ _ _ _ _ _) as [r w2] eqn:Htry.
    intros [= -> ->]. eexists. split; [reflexivity | exact Htry].
  - simpl (progressCallback (set_progressCallback cb w)).
    destruct (load E cb (set_progressCallback cb w)) as [[[[]|err]|] w2];
      try discriminate.
    destruct (convert_try _ _ _ _ _ _ _ _) as [r w3] eqn:Htry.
    intros [= -> ->]. eexists. split; [reflexivity | exact Htry].
Qed.

End Conversion.

Section Staging.

Context (E : engine) (cb : option nat) (w : FFmpegUtils).

Lemma load_frame :
  commands (load E cb w).2 = commands w /\
  writes (load E cb w).2 = writes w.
Proof.
  unfold load, load_enter.
  destruct (isLoaded w); [split; reflexivity|].
  destruct (isLoading w); [split; reflexivity|].
  unfold load_resume.
  destruct (bringup E); simpl; unfold commands, writes; simpl;
    rewrite !List.filter_app; simpl; rewrite !app_nil_r; split; reflexivity.
Qed.

Lemma staging_state_ready w1 :
  staging_state E cb w = Some w1 ->
  isLoaded w1 = true /\ progressCallback w1 = cb /\
  commands w1 = commands w /\ writes w1 = writes w /\
  delivered w1 = delivered w /\
  FS w1 = (if isLoaded w then FS w else ∅).
Proof.
  unfold staging_state. simpl (isLoaded (set_progressCallback cb w)).
  destruct (isLoaded w) eqn:Hl.
  - intros [= <-]. simpl. rewrite Hl. repeat split; reflexivity.
  - unfold load, load_enter. simpl. rewrite Hl.
    destruct (isLoading w); [discriminate|].
    unfold load_resume. destruct (bringup E); [discriminate|].
    intros [= <-]. simpl. unfold commands, writes. simpl.
    rewrite !List.filter_app. simpl. rewrite !app_nil_r.
    repeat split; reflexivity.
Qed.

End Staging.

(** ** The conversion *)

Lemma inputFileName_fresh f :
  inputFileName f <> "palette.png" /\ inputFileName f <> outputFileName.
Proof.
  unfold inputFileName. split; intros H; discriminate H.
Qed.

(** A conversion that resolves leaves none of its three files behind. *)
Lemma convert_success_cleans E f s e W fps q cb w blob w' :
  convertToGif E f s e W fps q cb w = (Settled (Resolved blob), w') ->
  FS w' !! inputFileName f = None /\
  FS w' !! "palette.png" = None /\
  FS w' !! outputFileName = None.
Proof.
  intros H. apply convertToGif_resolved in H as (w1 & _ & H).
  apply convert_try_resolved in H
    as (data & r1 & fs1 & r2 & fs2 & out & _ & _ & _ & _ & _ & _ & -> & _).
  destruct (inputFileName_fresh f) as [Hp Ho].
  repeat split.
  - rewrite !lookup_delete_ne by congruence. apply lookup_delete_eq.
  - rewrite lookup_delete_ne by discriminate. apply lookup_delete_eq.
  - apply lookup_delete_eq.
Qed.

(** A conversion whose palette command throws goes to the [catch] block with
    the state as the command left it: the write was recorded, the command
    was recorded, and the file system is the one the engine left. *)
Lemma convert_try_failed_palette E f s e W fps q w data r1 fs1 error :
  fetch E f = inr data ->
  0 < e - s ->
  exec E (palette_command f s (e - s) W fps (statsMode q))
       (<[inputFileName f := data]> (FS w)) = (r1, fs1, Some error) ->
  (convert_try E f s e W fps q w).1 = Rejected (conversion_failed error) /\
  FS (convert_try E f s e W fps q w).2 = fs1 /\
  calls (convert_try E f s e W fps q w).2 =
    (calls w ++
     [ CWriteFile (inputFileName f) data;
       CRun (palette_command f s (e - s) W fps (statsMode q)) ])%list.
Proof.
  intros Hfetch Hrange Hexec.
  unfold convert_try, try_catch, conversion, mbind, block_bind, mret, block_ret,
    fetchFile, FS_writeFile.
  rewrite Hfetch.
  destruct (Z.leb_spec (e - s) 0) as [Hle|_]; [lia|].
  set (w0 := record_call _ _).
  destruct (run E (palette_command f s (e - s) W fps (statsMode q)) w0)
    as [r w1] eqn:Hrun.
  apply run_calls in Hrun as (Hc & Hf & _ & _ & _ & _ & ->).
  subst w0. autorewrite with frame in Hc, Hf |- *.
  rewrite Hexec in Hf |- *. simpl in *.
  rewrite <- app_assoc in Hc. auto.
Qed.

(** A call made while another caller's bring-up is in flight waits on the
    polling promise of [load]: it stages nothing and is not settled by any
    step of its own. *)
Lemma convert_waits_while_loading E f s e W fps q cb w :
  isLoaded w = false ->
  isLoading w = true ->
  convertToGif E f s e W fps q cb w = (Pending, set_progressCallback cb w).
Proof.
  intros Hl Hg. unfold convertToGif, load, load_enter. simpl.
  rewrite Hl, Hg. reflexivity.
Qed.

(** C1.  A conversion that fails after staging leaves the staged input in
    the virtual file system: with the engine ready and a palette command
    that throws, the call rejects through the [catch] block, no [unlink]
    was issued, and ["input.mp4"] is still there with the bytes of the
    clip. *)
Theorem failed_conversion_leaves_input_staged :
  let r := convertToGif Demo.failing_command Demo.clip 2 7 480 10 75 None Demo.ready in
  r.1 = Settled (Rejected (Str "Failed to convert video: boom")) /\
  inputFileName Demo.clip = "input.mp4" /\
  FS r.2 !! "input.mp4" = Some (content Demo.clip) /\
  calls r.2 =
    [ CLoad; CWriteFile "input.mp4" (content Demo.clip);
      CRun (palette_command Demo.clip 2 5 480 10 1) ].
Proof. vm_compute. repeat split; reflexivity. Qed.

(** C2, as stated, fails: with an empty range and the engine ready, the
    call rejects with the invalid-range message only after it has written
    the input file, which is then in the virtual file system. *)
Lemma invalid_range_still_stages_input :
  let r := convertToGif Demo.working Demo.clip 5 5 480 10 75 None Demo.ready in
  r.1 = Settled (Rejected invalid_range) /\
  writes Demo.ready = [] /\
  writes r.2 = [CWriteFile "input.mp4" (content Demo.clip)] /\
  FS r.2 !! "input.mp4" = Some (content Demo.clip).
Proof. vm_compute. repeat split; reflexivity. Qed.

(** C2, amended.  With [endTime - startTime <= 0] the engine is given no
    command, whatever else happens; and when the call gets to staging (the
    engine is ready or this call brings it up) and the bytes of the source
    are fetched, the call rejects with the invalid-range message, the one
    write of the input file having been made before the range is looked
    at. *)
Theorem invalid_range_rejected E f s e W fps q cb w :
  e - s <= 0 ->
  commands (convertToGif E f s e W fps q cb w).2 = commands w /\
  forall w1 data,
    staging_state E cb w = Some w1 ->
    fetch E f = inr data ->
    (convertToGif E f s e W fps q cb w).1 = Settled (Rejected invalid_range) /\
    writes (convertToGif E f s e W fps q cb w).2 =
      (writes w ++ [CWriteFile (inputFileName f) data])%list.
Proof.
  intros Hrange. split.
  - destruct (staging_state E cb w) as [w1|] eqn:Hst.
    + rewrite (convertToGif_staged E f s e W fps q cb w w1 Hst). simpl.
      rewrite convert_try_invalid_range_commands by exact Hrange.
      apply staging_state_ready in Hst. tauto.
    + revert Hst. unfold staging_state, convertToGif.
      simpl (isLoaded (set_progressCallback cb w)).
      simpl (progressCallback (set_progressCallback cb w)).
      destruct (isLoaded w); [discriminate|].
      pose proof (load_frame E cb (set_progressCallback cb w)) as [Hc _].
      destruct (load E cb (set_progressCallback cb w)) as [[[[]|err]|] w2];
        [discriminate| |]; intros _; exact Hc.
  - intros w1 data Hst Hfetch.
    rewrite (convertToGif_staged E f s e W fps q cb w w1 Hst).
    rewrite (convert_try_invalid_range E f s e W fps q w1 data Hrange Hfetch).
    simpl. split; [reflexivity|].
    apply staging_state_ready in Hst as (_ & _ & _ & <- & _).
    unfold writes. simpl. rewrite List.filter_app. reflexivity.
Qed.

(** The amended C2 at an empty range, on a ready engine. *)
Lemma invalid_range_rejected_witness :
  let r := convertToGif Demo.working Demo.clip 5 5 480 10 75 None Demo.ready in
  5 - 5 <= 0 /\
  commands r.2 = commands Demo.ready /\
  r.1 = Settled (Rejected invalid_range) /\
  writes r.2 =
    (writes Demo.ready ++ [CWriteFile (inputFileName Demo.clip) (content Demo.clip)])%list.
Proof.
  intros r. split; [lia|].
  destruct (invalid_range_rejected Demo.working Demo.clip 5 5 480 10 75 None
              Demo.ready) as [Hcmd Hstaged]; [lia|].
  split; [exact Hcmd|].
  apply (Hstaged Demo.ready (content Demo.clip)); reflexivity.
Defined.
Lemma working_writes_its_output : writes_its_output Demo.working.
Proof.
  intros args fs ratios fs' H Hlast. simpl in H. unfold Demo.exec_ok in H.
  injection H as _ <-. rewrite Hlast, lookup_insert_eq. discriminate.
Qed.



(** ** Progress *)


(** ** Failure of the bring-up *)

(** C8, as stated, fails: the bring-up rejects with the error it got, and
    the conversion started on the same state rejects with another value, a
    string that puts a prefix before the message of that error. *)
Lemma load_failure_is_wrapped :
  (load Demo.failing_bringup None constructor).1
  = Settled (Rejected (Error "boom")) /\
  (convertToGif Demo.failing_bringup Demo.clip 2 7 480 10 75 None constructor).1
  = Settled (Rejected (Str "Failed to load FFmpeg: boom")) /\
  Str "Failed to load FFmpeg: boom" <> Error "boom".
Proof. repeat split; discriminate. Qed.

(** C8, amended.  When the call finds the engine neither loaded nor loading
    and the bring-up it starts fails with [error], the conversion rejects
    with the string ["Failed to load FFmpeg: "] followed by the message of
    [error]; nothing was staged and no command was given, and the engine is
    left neither loaded nor loading, so that a later call tries again. *)
Theorem load_failure_rejects_conversion E f s e W fps q cb w error :
  isLoaded w = false ->
  isLoading w = false ->
  bringup E = Some error ->
  (load E cb w).1 = Settled (Rejected error) /\
  (convertToGif E f s e W fps q cb w).1
  = Settled (Rejected (Str ("Failed to load FFmpeg: " +:+ message error))) /\
  writes (convertToGif E f s e W fps q cb w).2 = writes w /\
  commands (convertToGif E f s e W fps q cb w).2 = commands w /\
  isLoaded (convertToGif E f s e W fps q cb w).2 = false /\
  isLoading (convertToGif E f s e W fps q cb w).2 = false.
Proof.
  intros Hl Hg Hb.
  unfold convertToGif, load, load_enter, load_resume. simpl.
  rewrite Hl, Hg, Hb. simpl.
  unfold writes, commands. simpl. rewrite !List.filter_app. simpl.
  rewrite !app_nil_r. repeat split; try reflexivity; assumption.
Qed.

(** The amended C8 on a fresh singleton and an engine that does not come
    up. *)
Lemma load_failure_rejects_conversion_witness :
  isLoaded constructor = false /\
  isLoading constructor = false /\
  bringup Demo.failing_bringup = Some Demo.boom /\
  (convertToGif Demo.failing_bringup Demo.clip 2 7 480 10 75 None constructor).1
  = Settled (Rejected (Str "Failed to load FFmpeg: boom")).
Proof.
  split; [reflexivity|]. split; [reflexivity|]. split; [reflexivity|].
  apply (load_failure_rejects_conversion Demo.failing_bringup Demo.clip
           2 7 480 10 75 None constructor Demo.boom); reflexivity.
Defined.

(** ** Default parameters *)

(** C10.  A call that leaves all optional arguments out is the call with
    [startTime = 0], [endTime = 10], [outputWidth = 480], [fps = 10],
    [quality = 75] and no progress callback; and whichever arguments a call
    leaves out, it is the call that passes the defaults in their place. *)
Theorem convertToGif_defaults E f w :
  convertToGif_call E f (Args None None None None None None) w
  = convertToGif E f 0 10 480 10 75 None w /\
  (forall a,
      convertToGif_call E f a w =
      convertToGif_call E f
        (Args (Some (default 0 (arg_startTime a)))
              (Some (default 10 (arg_endTime a)))
              (Some (default 480 (arg_outputWidth a)))
              (Some (default 10 (arg_fps a)))
              (Some (default 75 (arg_quality a)))
              (arg_conversionProgressCallback a)) w) /\
  (forall s e W fps q cb,
      convertToGif_call E f (Args (Some s) (Some e) (Some W) (Some fps) (Some q) cb) w
      = convertToGif E f s e W fps q cb w).
Proof. repeat split. Qed.

(** ** Several callers of load *)

Section Callers.

Lemma load_enter_while_loading cb w :
  isLoaded w = false -> isLoading w = true ->
  load_enter cb w = (LoadPolling, w).
Proof. intros Hl Hg. unfold load_enter. rewrite Hl, Hg. reflexivity. Qed.

(** While a bring-up is in flight, further calls start none and wait. *)
Lemma calls_while_loading cbs p :
  isLoaded (this p) = false -> isLoading (this p) = true ->
  run_events p (map EvLoad cbs)
  = Page (this p) (callers p ++ repeat LoadPolling (length cbs)).
Proof.
  revert p. induction cbs as [|cb cbs IH]; intros [w cs] Hl Hg; simpl in *.
  - rewrite app_nil_r. reflexivity.
  - rewrite (load_enter_while_loading cb w Hl Hg).
    rewrite (IH (Page w (cs ++ [LoadPolling])) Hl Hg). simpl.
    rewrite <- app_assoc. reflexivity.
Qed.

(** While the engine is not loaded, the timers settle nobody. *)
Lemma timer_while_not_loaded p :
  isLoaded (this p) = false -> step p EvTimer = p.
Proof.
  destruct p as [w cs]. simpl. intros Hl. f_equal.
  induction cs as [|c cs IH]; [reflexivity|].
  simpl. rewrite IH. f_equal.
  destruct c; try reflexivity. unfold fire, poll. rewrite Hl. reflexivity.
Qed.

Lemma timers_while_not_loaded n p :
  isLoaded (this p) = false ->
  run_events p (repeat EvTimer n) = p.
Proof.
  intros Hl. induction n as [|n IH]; [reflexivity|].
  change (run_events (step p EvTimer) (repeat EvTimer n) = p).
  rewrite timer_while_not_loaded by exact Hl. exact IH.
Qed.

Lemma run_events_app p evs1 evs2 :
  run_events p (evs1 ++ evs2) = run_events (run_events p evs1) evs2.
Proof. apply fold_left_app. Qed.

Lemma settle_waiting r n :
  map (settle_awaiting r) (repeat LoadPolling n) = repeat LoadPolling n.
Proof. induction n; simpl; congruence. Qed.

Lemma fire_waiting w n :
  isLoaded w = true ->
  map (fire w) (repeat LoadPolling n) = repeat (LoadDone (Resolved tt)) n.
Proof.
  intros Hl. induction n as [|n IH]; [reflexivity|].
  simpl. rewrite IH. unfold poll. rewrite Hl. reflexivity.
Qed.

(** The page after the first call and [n] more, before the engine answers. *)
Lemma calls_from_fresh cb cbs :
  run_events fresh_page (map EvLoad (cb :: cbs))
  = Page (State ∅ false true cb [CLoad] [])
         (LoadAwaiting :: repeat LoadPolling (length cbs)).
Proof.
  simpl. rewrite calls_while_loading by reflexivity. reflexivity.
Qed.

End Callers.

(** However many calls are made while the engine is uninitialized or
    loading, one bring-up is started; when it succeeds, every caller is
    resolved once the timers have fired. *)
Lemma load_callers_resolve_on_success cb cbs :
  let p := run_events fresh_page
             (map EvLoad (cb :: cbs) ++ [EvEngine None; EvTimer]) in
  bringups (this p) = 1%nat /\
  isLoaded (this p) = true /\
  callers p = repeat (LoadDone (Resolved tt)) (S (length cbs)).
Proof.
  intros p. subst p. rewrite run_events_app, calls_from_fresh. simpl.
  rewrite settle_waiting, fire_waiting by reflexivity.
  repeat split; reflexivity.
Qed.

(** C3.  Two or more calls of [load] on a fresh page start one bring-up;
    when that bring-up fails with [error], the caller that started it is
    rejected with [error], and every other caller is still waiting after
    any number of timer rounds: its promise settles neither way. *)
Theorem load_waiters_never_settle_after_failure cb cb' cbs error ticks :
  let p := run_events fresh_page
             (map EvLoad (cb :: cb' :: cbs) ++ [EvEngine (Some error)] ++
              repeat EvTimer ticks) in
  bringups (this p) = 1%nat /\
  isLoaded (this p) = false /\
  isLoading (this p) = false /\
  callers p = LoadDone (Rejected error) :: LoadPolling :: repeat LoadPolling (length cbs).
Proof.
  intros p. subst p.
  rewrite run_events_app, calls_from_fresh, run_events_app. simpl.
  rewrite timers_while_not_loaded by reflexivity. simpl.
  rewrite settle_waiting. repeat split; reflexivity.
Qed.

(** ** Every step of a conversion advances the singleton *)

Section Advances.

Context (E : engine).

Lemma advances_refl w : advances w w.
Proof.
  repeat split; try reflexivity.
  - exists []. rewrite app_nil_r. split; [reflexivity | constructor].
  - exists []. rewrite app_nil_r. split; [reflexivity | constructor].
Qed.

Lemma advances_trans w1 w2 w3 :
  advances w1 w2 -> advances w2 w3 -> advances w1 w3.
Proof.
  intros (Hl & Hg & Hp & (cs & Hc & Hcs) & (ds & Hd & Hds))
         (Hl' & Hg' & Hp' & (cs' & Hc' & Hcs') & (ds' & Hd' & Hds')).
  split; [congruence|]. split; [congruence|]. split; [congruence|]. split.
  - exists (cs ++ cs')%list. rewrite Hc', Hc, <- app_assoc.
    split; [reflexivity | apply Forall_app; split; assumption].
  - exists (ds ++ ds')%list. rewrite Hd', Hd, <- app_assoc.
    split; [reflexivity|]. apply Forall_app. split; [assumption|].
    rewrite <- Hp. exact Hds'.
Qed.

Lemma advancing_ret {A} (a : A) : advancing (mret a : block A).
Proof. intros w. apply advances_refl. Qed.

Lemma advancing_bind {A B} (m : block A) (k : A -> block B) :
  advancing m -> (forall a, advancing (k a)) -> advancing (m ≫= k).
Proof.
  intros Hm Hk w. unfold mbind, block_bind.
  specialize (Hm w). destruct (m w) as [[err|a] w1]; simpl in *; [exact Hm|].
  eapply advances_trans; [exact Hm | apply Hk].
Qed.

Lemma advances_one_call c w w' :
  is_CLoad c = false ->
  isLoaded w' = isLoaded w -> isLoading w' = isLoading w ->
  progressCallback w' = progressCallback w ->
  calls w' = (calls w ++ [c])%list ->
  delivered w' = delivered w ->
  advances w w'.
Proof.
  intros Hc Hl Hg Hp Hcs Hd. repeat split; try assumption.
  - exists [c]. split; [assumption | repeat constructor; assumption].
  - exists []. rewrite app_nil_r. split; [assumption | constructor].
Qed.

Lemma advancing_fetchFile f : advancing (fetchFile E f).
Proof. intros w. apply advances_refl. Qed.

Lemma advancing_writeFile path data : advancing (FS_writeFile path data).
Proof. intros w. apply (advances_one_call (CWriteFile path data)); reflexivity. Qed.

Lemma advancing_readFile path : advancing (FS_readFile E path).
Proof.
  intros w. unfold FS_readFile.
  destruct (FS w !! path); apply (advances_one_call (CReadFile path)); reflexivity.
Qed.

Lemma advancing_unlink path : advancing (FS_unlink E path).
Proof.
  intros w. unfold FS_unlink.
  destruct (FS w !! path); apply (advances_one_call (CUnlink path)); reflexivity.
Qed.

Lemma advancing_run args : advancing (run E args).
Proof.
  intros w. destruct (run E args w) as [r w'] eqn:Hrun.
  apply run_calls in Hrun as (Hc & _ & Hl & Hg & Hp & Hd & _). simpl.
  repeat split; try assumption.
  - exists [CRun args]. split; [assumption | repeat constructor].
  - eexists. split; [exact Hd|].
    destruct (progressCallback w) as [cb|]; [|constructor].
    apply List.Forall_forall. intros d Hin. apply in_map_iff in Hin as (r0 & <- & _).
    reflexivity.
Qed.

Lemma advancing_conversion f s e W fps q :
  advancing (conversion E f s e W fps q).
Proof.
  unfold conversion.
  apply advancing_bind; [apply advancing_fetchFile | intros data].
  apply advancing_bind; [apply advancing_writeFile | intros _].
  destruct (e - s <=? 0); [apply advancing_ret|].
  apply advancing_bind; [apply advancing_run | intros _].
  apply advancing_bind; [apply advancing_run | intros _].
  apply advancing_bind; [apply advancing_readFile | intros out].
  apply advancing_bind; [apply advancing_unlink | intros _].
  apply advancing_bind; [apply advancing_unlink | intros _].
  apply advancing_bind; [apply advancing_unlink | intros _].
  apply advancing_ret.
Qed.

Lemma convert_try_advances f s e W fps q w :
  advances w (convert_try E f s e W fps q w).2.
Proof.
  unfold convert_try, try_catch.
  pose proof (advancing_conversion f s e W fps q w) as H.
  destruct (conversion E f s e W fps q w) as [[err|r] w']; exact H.
Qed.

End Advances.

(** ** Outcomes of convertToGif *)

Section Outcomes.

Context (E : engine) (f : File) (s e W fps q : Z).

Lemma bringups_advances w w' : advances w w' -> bringups w' = bringups w.
Proof.
  intros (_ & _ & _ & (cs & Hc & Hcs) & _). unfold bringups.
  rewrite Hc, List.filter_app, length_app.
  replace (List.filter is_CLoad cs) with (@nil engine_call); [simpl; lia|].
  clear Hc. induction Hcs as [|c cs Hc _ IH]; [reflexivity|]. simpl. rewrite Hc. exact IH.
Qed.

Lemma staging_state_loaded cb w :
  isLoaded w = true -> staging_state E cb w = Some (set_progressCallback cb w).
Proof. intros Hl. unfold staging_state. simpl. rewrite Hl. reflexivity. Qed.

(** X1.  Once the engine is loaded, a conversion, however it ends, leaves it
    loaded, starts no bring-up, and leaves its own callback in place. *)
Theorem convert_keeps_engine_loaded cb w :
  isLoaded w = true ->
  isLoaded (convertToGif E f s e W fps q cb w).2 = true /\
  isLoading (convertToGif E f s e W fps q cb w).2 = isLoading w /\
  bringups (convertToGif E f s e W fps q cb w).2 = bringups w /\
  progressCallback (convertToGif E f s e W fps q cb w).2 = cb.
Proof.
  intros Hl.
  rewrite (convertToGif_staged E f s e W fps q cb w _ (staging_state_loaded cb w Hl)).
  simpl.
  pose proof (convert_try_advances E f s e W fps q (set_progressCallback cb w)) as Ha.
  pose proof (bringups_advances _ _ Ha) as Hb.
  destruct Ha as (Hl' & Hg' & Hp' & _).
  rewrite Hl', Hg', Hp', Hb. simpl. auto.
Qed.

(** The second [try] statement rejects with the invalid-range message or
    with what the [catch] block makes of an error. *)
Lemma convert_try_rejection w r :
  (convert_try E f s e W fps q w).1 = Rejected r ->
  (r = invalid_range /\ e - s <= 0) \/ exists err, r = conversion_failed err.
Proof.
  unfold convert_try, try_catch, conversion, mbind, block_bind, mret, block_ret,
    fetchFile, FS_writeFile.
  destruct (fetch E f) as [err|data]; simpl.
  { intros [= <-]. right. eexists. reflexivity. }
  destruct (Z.leb_spec (e - s) 0) as [Hle|Hlt]; simpl.
  { intros [= <-]. left. auto. }
  repeat match goal with
         | |- context [run E ?a ?u] =>
             destruct (run E a u) as [[?|[]] ?]; simpl
         | |- context [FS_readFile E ?a ?u] =>
             destruct (FS_readFile E a u) as [[?|?] ?]; simpl
         | |- context [FS_unlink E ?a ?u] =>
             destruct (FS_unlink E a u) as [[?|[]] ?]; simpl
         end;
    intros [= <-] || discriminate; right; eexists; reflexivity.
Qed.

Lemma convertToGif_rejection cb w r :
  (convertToGif E f s e W fps q cb w).1 = Settled (Rejected r) ->
  (r = invalid_range /\ e - s <= 0) \/
  (exists err, bringup E = Some err /\ isLoaded w = false /\ r = load_failed err) \/
  (exists err, r = conversion_failed err).
Proof.
  unfold convertToGif. simpl (isLoaded (set_progressCallback cb w)).
  simpl (progressCallback (set_progressCallback cb w)).
  destruct (isLoaded w) eqn:Hl.
  - destruct (convert_try _ _ _ _ _ _ _ _) as [r' w'] eqn:Htry. simpl.
    intros [= ->].
    destruct (convert_try_rejection _ r (f_equal fst Htry)) as [H|H]; auto.
  - unfold load, load_enter. simpl. rewrite Hl.
    destruct (isLoading w); [discriminate|].
    unfold load_resume. destruct (bringup E) as [err|] eqn:Hb; simpl.
    + intros [= <-]. right. left. exists err. auto.
    + destruct (convert_try _ _ _ _ _ _ _ _) as [r' w'] eqn:Htry. simpl.
      intros [= ->].
      destruct (convert_try_rejection _ r (f_equal fst Htry)) as [H|H]; auto.
Qed.

(** X2.  Whatever goes wrong, the call rejects with a string of one of three
    shapes: the invalid-range message, the load prefix before the message
    of the bring-up's error, or the conversion prefix before the message of
    the error caught. *)
Theorem convertToGif_rejection_shape cb w r :
  (convertToGif E f s e W fps q cb w).1 = Settled (Rejected r) ->
  (r = invalid_range /\ e - s <= 0) \/
  (exists err, bringup E = Some err /\ isLoaded w = false /\ r = load_failed err) \/
  (exists err, r = conversion_failed err).
Proof. apply convertToGif_rejection. Qed.

Lemma convertToGif_pending cb w :
  (convertToGif E f s e W fps q cb w).1 = Pending <->
  isLoaded w = false /\ isLoading w = true.
Proof.
  unfold convertToGif. simpl (isLoaded (set_progressCallback cb w)).
  simpl (progressCallback (set_progressCallback cb w)).
  destruct (isLoaded w) eqn:Hl.
  - destruct (convert_try _ _ _ _ _ _ _ _). simpl.
    split; [discriminate | intros [? _]; discriminate].
  - unfold load, load_enter. simpl. rewrite Hl.
    destruct (isLoading w) eqn:Hg; [split; auto|].
    unfold load_resume. destruct (bringup E); simpl.
    + split; [discriminate | intros [_ ?]; discriminate].
    + destruct (convert_try _ _ _ _ _ _ _ _). simpl.
      split; [discriminate | intros [_ ?]; discriminate].
Qed.


(** X4.  When the bytes of the source cannot be read, the call rejects
    through the [catch] block and nothing has reached the engine: no file is
    staged and no command is issued. *)
Theorem fetch_failure_touches_nothing cb w err :
  isLoaded w = true ->
  fetch E f = inl err ->
  convertToGif E f s e W fps q cb w
  = (Settled (Rejected (conversion_failed err)), set_progressCallback cb w).
Proof.
  intros Hl Hf.
  rewrite (convertToGif_staged E f s e W fps q cb w _ (staging_state_loaded cb w Hl)).
  unfold convert_try, try_catch, conversion, mbind, block_bind, fetchFile.
  rewrite Hf. reflexivity.
Qed.

End Outcomes.

Lemma convert_keeps_engine_loaded_witness :
  isLoaded Demo.ready = true /\
  isLoaded (convertToGif Demo.failing_command Demo.clip 2 7 480 10 75 None Demo.ready).2 = true.
Proof.
  split; [reflexivity|].
  apply (convert_keeps_engine_loaded Demo.failing_command Demo.clip 2 7 480 10 75
           None Demo.ready). reflexivity.
Defined.

Lemma convertToGif_rejection_shape_witness :
  (convertToGif Demo.failing_command Demo.clip 2 7 480 10 75 None Demo.ready).1
  = Settled (Rejected (Str "Failed to convert video: boom")) /\
  ((Str "Failed to convert video: boom" = invalid_range /\ 7 - 2 <= 0) \/
   (exists err, bringup Demo.failing_command = Some err /\
                isLoaded Demo.ready = false /\
                Str "Failed to convert video: boom" = load_failed err) \/
   (exists err, Str "Failed to convert video: boom" = conversion_failed err)).
Proof.
  split; [reflexivity|].
  apply (convertToGif_rejection_shape Demo.failing_command Demo.clip 2 7 480 10 75
           None Demo.ready). reflexivity.
Defined.

Lemma fetch_failure_touches_nothing_witness :
  isLoaded Demo.ready = true /\
  fetch Sample.unreadable Demo.clip = inl (Error "read failed") /\
  calls (convertToGif Sample.unreadable Demo.clip 2 7 480 10 75 None Demo.ready).2
  = calls Demo.ready.
Proof.
  split; [reflexivity|]. split; [reflexivity|].
  rewrite (fetch_failure_touches_nothing Sample.unreadable Demo.clip 2 7 480 10 75
             None Demo.ready (Error "read failed")); reflexivity.
Defined.

Section Success.

Context (E : engine) (f : File) (s e W fps q : Z).

(** The second [try] statement resolves exactly when every step goes
    through. *)
Lemma convert_try_resolves_iff w blob :
  (convert_try E f s e W fps q w).1 = Resolved blob <->
  exists data r1 fs1 r2 fs2,
    fetch E f = inr data /\
    0 < e - s /\
    exec E (palette_command f s (e - s) W fps (statsMode q))
         (<[inputFileName f := data]> (FS w)) = (r1, fs1, None) /\
    exec E (encode_command f s (e - s) W fps) fs1 = (r2, fs2, None) /\
    fs2 !! outputFileName = Some (blob_data blob) /\
    blob_type blob = "image/gif" /\
    is_Some (fs2 !! inputFileName f) /\
    is_Some (fs2 !! "palette.png").
Proof.
  destruct (inputFileName_fresh f) as [Hnp Hno].
  unfold convert_try, try_catch, conversion, mbind, block_bind, mret, block_ret,
    fetchFile, FS_writeFile.
  destruct (fetch E f) as [err|data] eqn:Hfetch.
  { split; [discriminate | intros (? & ? & ? & ? & ? & Hx & _); discriminate Hx]. }
  destruct (Z.leb_spec (e - s) 0) as [Hle|Hlt].
  { split; [discriminate | intros (? & ? & ? & ? & ? & _ & ? & _); lia]. }
  set (w0 := record_call _ _).
  destruct (run E (palette_command f s (e - s) W fps (statsMode q)) w0)
    as [r w1] eqn:Hrun1.
  apply run_calls in Hrun1 as (_ & Hf1 & _ & _ & _ & _ & ->).
  subst w0. autorewrite with frame in Hf1 |- *.
  destruct (exec E (palette_command f s (e - s) W fps (statsMode q))
              (<[inputFileName f := data]> (FS w))) as [[r1 fs1] [err|]] eqn:He1;
    simpl in Hf1 |- *.
  { split; [discriminate|].
    intros (? & ? & ? & ? & ? & Hx & _ & Hy & _). congruence. }
  destruct (run E (encode_command f s (e - s) W fps) w1) as [r w2] eqn:Hrun2.
  apply run_calls in Hrun2 as (_ & Hf2 & _ & _ & _ & _ & ->).
  rewrite Hf1 in Hf2 |- *.
  destruct (exec E (encode_command f s (e - s) W fps) fs1)
    as [[r2 fs2] [err|]] eqn:He2; simpl in Hf2 |- *.
  { split; [discriminate|].
    intros (? & ? & ? & ? & ? & Hx & _ & Hy & Hz & _). congruence. }
  assert (Hsame : forall data' r1' fs1' r2' fs2',
             (inr data : exn + bytes) = inr data' ->
             exec E (palette_command f s (e - s) W fps (statsMode q))
                  (<[inputFileName f := data']> (FS w)) = (r1', fs1', None) ->
             exec E (encode_command f s (e - s) W fps) fs1' = (r2', fs2', None) ->
             fs2' = fs2).
  { intros data' r1' fs1' r2' fs2' Hx Hy Hz. congruence. }
  unfold FS_readFile, FS_unlink. autorewrite with frame. rewrite Hf2.
  destruct (fs2 !! outputFileName) as [out|] eqn:Hout.
  2:{ split; [discriminate|].
      intros (? & ? & ? & ? & ? & Hx & _ & Hy & Hz & Ho & _).
      rewrite (Hsame _ _ _ _ _ Hx Hy Hz) in Ho. congruence. }
  autorewrite with frame. rewrite Hf2.
  destruct (fs2 !! inputFileName f) as [x|] eqn:Hin.
  2:{ split; [discriminate|].
      intros (? & ? & ? & ? & ? & Hx & _ & Hy & Hz & _ & _ & Hi & _).
      rewrite (Hsame _ _ _ _ _ Hx Hy Hz), Hin in Hi. destruct Hi; discriminate. }
  autorewrite with frame.
  rewrite lookup_delete_ne by exact Hnp.
  destruct (fs2 !! "palette.png") as [y|] eqn:Hpal.
  2:{ split; [discriminate|].
      intros (? & ? & ? & ? & ? & Hx & _ & Hy & Hz & _ & _ & _ & Hp).
      rewrite (Hsame _ _ _ _ _ Hx Hy Hz), Hpal in Hp. destruct Hp; discriminate. }
  autorewrite with frame.
  rewrite !lookup_delete_ne by (discriminate || congruence). rewrite Hout. simpl.
  split.
  - intros [= <-]. exists data, r1, fs1, r2, fs2. simpl. eauto 10.
  - intros (? & ? & ? & ? & ? & Hx & _ & Hy & Hz & Ho & Ht & _).
    rewrite (Hsame _ _ _ _ _ Hx Hy Hz), Hout in Ho.
    destruct blob as [bd bt]. simpl in *. congruence.
Qed.

(** X5.  The call resolves with [blob] exactly when it gets to staging, the
    source is read, the range is positive, both commands succeed, and the
    file system the second command leaves holds the output (the bytes of
    [blob]) and also still holds the staged input and the palette: a run
    whose palette or input file is gone rejects although the output was
    produced. *)
Theorem convertToGif_resolves_iff cb w blob :
  (convertToGif E f s e W fps q cb w).1 = Settled (Resolved blob) <->
  exists w1 data r1 fs1 r2 fs2,
    staging_state E cb w = Some w1 /\
    fetch E f = inr data /\
    0 < e - s /\
    exec E (palette_command f s (e - s) W fps (statsMode q))
         (<[inputFileName f := data]> (FS w1)) = (r1, fs1, None) /\
    exec E (encode_command f s (e - s) W fps) fs1 = (r2, fs2, None) /\
    fs2 !! outputFileName = Some (blob_data blob) /\
    blob_type blob = "image/gif" /\
    is_Some (fs2 !! inputFileName f) /\
    is_Some (fs2 !! "palette.png").
Proof.
  split.
  - destruct (staging_state E cb w) as [w1|] eqn:Hst.
    + rewrite (convertToGif_staged E f s e W fps q cb w w1 Hst). simpl.
      intros [= H]. apply convert_try_resolves_iff in H
        as (data & r1 & fs1 & r2 & fs2 & H).
      exists w1, data, r1, fs1, r2, fs2. split; [reflexivity | exact H].
    + revert Hst. unfold staging_state, convertToGif.
      simpl (isLoaded (set_progressCallback cb w)).
      simpl (progressCallback (set_progressCallback cb w)).
      destruct (isLoaded w); [discriminate|].
      destruct (load E cb (set_progressCallback cb w)) as [[[[]|err]|] w2];
        discriminate.
  - intros (w1 & data & r1 & fs1 & r2 & fs2 & Hst & H).
    rewrite (convertToGif_staged E f s e W fps q cb w w1 Hst). simpl.
    f_equal. apply convert_try_resolves_iff. eauto 10.
Qed.


End Success.

(** With an engine whose commands succeed without writing anything, the
    call rejects at the read of the output. *)
Example idle_engine_rejects :
  (convertToGif Sample.idle Demo.clip 2 7 480 10 75 None Demo.ready).1
  = Settled (Rejected (Str "Failed to convert video: FS error")).
Proof. reflexivity. Qed.

(** ** The callers of load, whatever happens *)

Section Events.

Lemma filter_awaiting_settled r cs :
  List.filter is_awaiting (map (settle_awaiting r) cs) = [].
Proof.
  induction cs as [|c cs IH]; [reflexivity|].
  destruct c; simpl; exact IH.
Qed.

Lemma filter_awaiting_fired w cs :
  List.filter is_awaiting (map (fire w) cs) = List.filter is_awaiting cs.
Proof.
  induction cs as [|c cs IH]; [reflexivity|].
  destruct c; simpl; [rewrite IH; reflexivity | | rewrite IH; reflexivity].
  unfold poll. destruct (isLoaded w); simpl; exact IH.
Qed.

Lemma existsb_awaiting_false cs :
  existsb is_awaiting cs = false -> List.filter is_awaiting cs = [].
Proof.
  induction cs as [|c cs IH]; [reflexivity|]. simpl.
  destruct (is_awaiting c); [discriminate | exact IH].
Qed.

Lemma coherent_step p ev : coherent p -> coherent (step p ev).
Proof.
  destruct p as [w cs]. unfold coherent, in_flight. simpl.
  intros [Hn Hx]. destruct ev as [cb|answer|]; simpl.
  - unfold load_enter. destruct (isLoaded w) eqn:Hl; simpl.
    + rewrite List.filter_app, length_app, Hl. simpl. split; [lia | exact Hx].
    + destruct (isLoading w) eqn:Hg; simpl.
      * rewrite List.filter_app, length_app, Hl, Hg. simpl. split; [lia | reflexivity].
      * rewrite List.filter_app, length_app, Hl. simpl. split; [lia | reflexivity].
  - destruct (existsb is_awaiting cs) eqn:He; simpl.
    + destruct answer as [err|]; simpl; rewrite filter_awaiting_settled; simpl.
      * split; [reflexivity | apply andb_false_r].
      * split; [reflexivity | reflexivity].
    + split; assumption.
  - rewrite filter_awaiting_fired. split; assumption.
Qed.

End Events.

(** X7.  On a page that starts fresh, whatever calls, engine answers and
    timer rounds follow in whatever order, at most one caller is ever
    suspended at a bring-up, there is one exactly while [isLoading] is set,
    and [isLoaded] and [isLoading] are never set together. *)
Theorem one_bringup_in_flight (evs : list event) :
  let p := run_events fresh_page evs in
  (in_flight p <= 1)%nat /\
  (in_flight p = 1%nat <-> isLoading (this p) = true) /\
  (isLoaded (this p) = true -> isLoading (this p) = false).
Proof.
  assert (H : coherent (run_events fresh_page evs)).
  { unfold run_events. generalize fresh_page, (conj eq_refl eq_refl : coherent fresh_page).
    induction evs as [|ev evs IH]; intros p Hp; [exact Hp|].
    simpl. apply IH, coherent_step, Hp. }
  destruct H as [Hn Hx]. simpl.
  destruct (isLoading (this (run_events fresh_page evs))); rewrite Hn.
  - split; [lia|]. split; [tauto|]. rewrite andb_true_r in Hx. congruence.
  - split; [lia|]. split; [split; discriminate | reflexivity].
Qed.

(** X8.  Once the engine is loaded, no later call, answer or timer round
    unloads it, starts a bring-up or replaces the file system: what is
    staged stays, and every later caller of [load] is resolved at once. *)
Theorem loaded_is_stable (p : page) (evs : list event) :
  isLoaded (this p) = true ->
  isLoaded (this (run_events p evs)) = true /\
  bringups (this (run_events p evs)) = bringups (this p) /\
  FS (this (run_events p evs)) = FS (this p).
Proof.
  revert p. induction evs as [|ev evs IH]; intros p Hl; [auto|].
  change (run_events p (ev :: evs)) with (run_events (step p ev) evs).
  assert (Hs : isLoaded (this (step p ev)) = true /\
               bringups (this (step p ev)) = bringups (this p) /\
               FS (this (step p ev)) = FS (this p)).
  { destruct p as [w cs]. simpl in Hl. destruct ev as [cb|answer|]; simpl.
    - unfold load_enter. rewrite Hl. simpl. auto.
    - destruct (existsb is_awaiting cs); simpl; [|auto].
      destruct answer; simpl; auto.
    - auto. }
  destruct Hs as (Hl' & Hb' & Hf').
  destruct (IH (step p ev) Hl') as (? & ? & ?).
  split; [assumption|]. split; congruence.
Qed.

Lemma loaded_is_stable_witness :
  let p := run_events fresh_page [EvLoad None; EvEngine None] in
  isLoaded (this p) = true /\
  bringups (this (run_events p [EvLoad None; EvTimer; EvLoad (Some 1%nat)])) = 1%nat.
Proof.
  intros p. split; [reflexivity|].
  apply (loaded_is_stable p [EvLoad None; EvTimer; EvLoad (Some 1%nat)]).
  reflexivity.
Defined.

(** X9.  A later call of [load] retries after a failed bring-up, and when
    the retry succeeds the callers left waiting by the failed attempt are
    resolved by their next timer round as well; only the caller that
    started the failed attempt was rejected. *)
Theorem retry_resolves_waiting_callers cb cbs error cb' :
  let p := run_events fresh_page
             (map EvLoad (cb :: cbs) ++
              [EvEngine (Some error); EvLoad cb'; EvEngine None; EvTimer]) in
  bringups (this p) = 2%nat /\
  isLoaded (this p) = true /\
  callers p =
    (LoadDone (Rejected error) :: repeat (LoadDone (Resolved tt)) (length cbs) ++
     [LoadDone (Resolved tt)])%list.
Proof.
  intros p. subst p. rewrite run_events_app, calls_from_fresh. simpl.
  rewrite settle_waiting, existsb_app. simpl (existsb _ [LoadAwaiting]).
  rewrite orb_true_r. simpl.
  rewrite !map_app, settle_waiting, fire_waiting by reflexivity.
  repeat split; reflexivity.
Qed.

(** ** More on quality, progress and extensions *)

(** X10.  [statsMode] as a table of the quality: 5 up to quality 10, 4 up to
    30, 3 up to 50, 2 up to 70 and 1 above; so a higher quality never gives
    a larger [statsMode]. *)
Theorem statsMode_table (quality : Z) :
  statsMode quality =
    (if quality <=? 10 then 5
     else if quality <=? 30 then 4
     else if quality <=? 50 then 3
     else if quality <=? 70 then 2
     else 1) /\
  (forall quality', quality <= quality' -> statsMode quality' <= statsMode quality).
Proof.
  assert (Hs : forall x, statsMode x = Z.max 1 ((100 - normalizedQuality x + 10) / 20)).
  { intros x. unfold statsMode. rewrite Math_round_twentieth. reflexivity. }
  split.
  - rewrite Hs. unfold normalizedQuality.
    destruct (Z.leb_spec quality 10); [Z.to_euclidean_division_equations; lia|].
    destruct (Z.leb_spec quality 30); [Z.to_euclidean_division_equations; lia|].
    destruct (Z.leb_spec quality 50); [Z.to_euclidean_division_equations; lia|].
    destruct (Z.leb_spec quality 70); Z.to_euclidean_division_equations; lia.
  - intros quality' Hle. rewrite !Hs. unfold normalizedQuality.
    apply Z.max_le_compat_l, Z.div_le_mono; lia.
Qed.

(** X11.  The percentage is monotone in the ratio: while the engine's ratios
    do not decrease, neither do the percentages the callback gets. *)
Theorem percent_monotone (r1 r2 : Q) :
  (r1 <= r2)%Q -> percent r1 <= percent r2.
Proof.
  intros H. unfold percent, Math_round. apply Qfloor_resp_le. lra.
Qed.

Lemma percent_monotone_witness :
  (1 # 3 <= 1 # 2)%Q /\ percent (1 # 3) <= percent (1 # 2).
Proof.
  assert (H : (1 # 3 <= 1 # 2)%Q) by (vm_compute; discriminate).
  split; [exact H | exact (percent_monotone (1 # 3) (1 # 2) H)].
Defined.

Section Extensions.

Lemma lower_ascii_idem c : lower_ascii (lower_ascii c) = lower_ascii c.
Proof. destruct c as [[] [] [] [] [] [] [] []]; reflexivity. Qed.

Lemma lower_ascii_dot c : Ascii.eqb (lower_ascii c) "." = Ascii.eqb c ".".
Proof. destruct c as [[] [] [] [] [] [] [] []]; reflexivity. Qed.

Lemma toLowerCase_idem s : toLowerCase (toLowerCase s) = toLowerCase s.
Proof.
  induction s as [|c s IH]; [reflexivity|].
  simpl. rewrite lower_ascii_idem, IH. reflexivity.
Qed.

Lemma has_dot_lower s : has_dot (toLowerCase s) = has_dot s.
Proof.
  induction s as [|c s IH]; [reflexivity|].
  simpl. rewrite lower_ascii_dot, IH. reflexivity.
Qed.

Lemma after_last_dot_lower s :
  after_last_dot (toLowerCase s) = toLowerCase (after_last_dot s).
Proof.
  induction s as [|c s IH]; [reflexivity|].
  cbn [toLowerCase after_last_dot]. rewrite has_dot_lower, lower_ascii_dot, IH.
  destruct (has_dot s); [reflexivity|].
  destruct (Ascii.eqb c "."); reflexivity.
Qed.

Lemma getFileExtension_after_last_dot s :
  getFileExtension s = toLowerCase (after_last_dot s).
Proof. unfold getFileExtension. rewrite pop_split. reflexivity. Qed.

End Extensions.

(** X12.  The extension does not depend on the case of the file name: a name
    and its lower-cased form have the same extension, so that ["A.MP4"] and
    ["a.mp4"] are staged under the same name. *)
Theorem getFileExtension_case_insensitive (filename : string) :
  getFileExtension (toLowerCase filename) = getFileExtension filename /\
  inputFileName (MkFile (toLowerCase filename) []) = inputFileName (MkFile filename []).
Proof.
  assert (H : getFileExtension (toLowerCase filename) = getFileExtension filename).
  { rewrite !getFileExtension_after_last_dot, after_last_dot_lower.
    apply toLowerCase_idem. }
  split; [exact H|]. unfold inputFileName. simpl. rewrite H. reflexivity.
Qed.

(** X13.  An extension holds no ["."] and is its own extension: taking the
    extension twice gives what taking it once gives. *)
Theorem getFileExtension_idempotent (filename : string) :
  has_dot (getFileExtension filename) = false /\
  getFileExtension (getFileExtension filename) = getFileExtension filename.
Proof.
  rewrite !getFileExtension_after_last_dot.
  assert (H : has_dot (toLowerCase (after_last_dot filename)) = false).
  { rewrite has_dot_lower. apply after_last_dot_clean. }
  split; [exact H|].
  rewrite (after_last_dot_no_dot _ H). apply toLowerCase_idem.
Qed.

(** ** VideoUploader *)

Section Uploader.

Lemma supported_iff t :
  existsb (String.eqb t) supportedFormats = true <->
  t = "video/mp4" \/ t = "video/webm".
Proof.
  simpl. rewrite orb_false_r, orb_true_iff, !String.eqb_eq. reflexivity.
Qed.

Lemma supported_starts_with_video t :
  existsb (String.eqb t) supportedFormats = true ->
  String.prefix "video/" t = true.
Proof. rewrite supported_iff. intros [-> | ->]; reflexivity. Qed.

Lemma validateFile_verdict file :
  (validateFile file).1 = true -> (validateFile file).2 = "".
Proof.
  unfold validateFile.
  destruct (negb (String.prefix "video/" (picked_type file))); [discriminate|].
  destruct (negb (existsb (String.eqb (picked_type file)) supportedFormats));
    [discriminate|].
  destruct (picked_size file >? maxSize); [discriminate | reflexivity].
Qed.

End Uploader.

(** X14.  A file is accepted exactly when its type is ["video/mp4"] or
    ["video/webm"] and its size is at most 104857600 bytes (a file of
    exactly 100 MiB passes); the error is cleared exactly then. *)
Theorem validateFile_accepts_iff (file : picked) :
  ((validateFile file).1 = true <->
   (picked_type file = "video/mp4" \/ picked_type file = "video/webm") /\
   picked_size file <= 104857600) /\
  ((validateFile file).2 = "" <-> (validateFile file).1 = true).
Proof.
  unfold validateFile.
  pose proof (supported_iff (picked_type file)) as Hs.
  pose proof (supported_starts_with_video (picked_type file)) as Hv.
  rewrite Z.gtb_ltb.
  destruct (Z.ltb_spec maxSize (picked_size file)) as [Hz|Hz]; unfold maxSize in Hz;
    destruct (String.prefix "video/" (picked_type file));
    destruct (existsb (String.eqb (picked_type file)) supportedFormats);
    cbn [negb fst snd];
    intuition (discriminate || lia || auto).
Qed.

(** X15.  The checks run in a fixed order, type before size: the size message
    is shown only for an MP4 or WebM file above the limit, and a file of
    another type gets one of the two type messages whatever its size. *)
Theorem validateFile_message (file : picked) :
  ((validateFile file).2 = "File size must be less than 100MB" <->
   (picked_type file = "video/mp4" \/ picked_type file = "video/webm") /\
   104857600 < picked_size file) /\
  ((validateFile file).2 = "Only MP4 and WebM formats are supported" <->
   String.prefix "video/" (picked_type file) = true /\
   picked_type file <> "video/mp4" /\ picked_type file <> "video/webm") /\
  ((validateFile file).2 = "Please upload a video file (MP4 or WebM)" <->
   String.prefix "video/" (picked_type file) = false).
Proof.
  unfold validateFile.
  pose proof (supported_iff (picked_type file)) as Hs.
  pose proof (supported_starts_with_video (picked_type file)) as Hv.
  rewrite Z.gtb_ltb.
  destruct (Z.ltb_spec maxSize (picked_size file)) as [Hz|Hz]; unfold maxSize in Hz;
    destruct (String.prefix "video/" (picked_type file));
    destruct (existsb (String.eqb (picked_type file)) supportedFormats);
    cbn [negb fst snd];
    intuition (discriminate || lia || auto).
Qed.

(** X16.  A drop on a disabled uploader selects nothing and leaves the error
    as it was; otherwise only the first file dropped is looked at, and a
    file reaches [onVideoSelect] only if it is that first file, passes
    [validateFile], and the error is cleared. *)
Theorem handleDrop_selects (disabled : bool) (files : list picked) (u : uploader) :
  isDragging (handleDrop disabled files u).2 = false /\
  (disabled = true ->
   handleDrop disabled files u = (None, Uploader false (upload_error u))) /\
  (forall file,
      (handleDrop disabled files u).1 = Some file ->
      disabled = false /\ head files = Some file /\
      (validateFile file).1 = true /\
      upload_error (handleDrop disabled files u).2 = "").
Proof.
  unfold handleDrop, handleFile. destruct disabled; simpl.
  { split; [reflexivity|]. split; [reflexivity | discriminate]. }
  destruct files as [|file0 rest]; simpl.
  { split; [reflexivity|]. split; [discriminate | discriminate]. }
  pose proof (validateFile_verdict file0) as Herr.
  destruct (validateFile file0) as [[] error] eqn:Hv; simpl in *.
  - split; [reflexivity|]. split; [discriminate|].
    intros file [= <-]. rewrite Hv. simpl. auto.
  - split; [reflexivity|]. split; discriminate.
Qed.

(** ** App: handleConvert *)

Section HandleConvert.

Context (E : engine) (cb : nat).

(** X17.  [handleConvert] either stops at one of its three guards, with the
    orchestrator untouched and the guard's message shown, or hands the
    selected file to [convertToGif] with width 480, 10 frames per second and
    quality 75 and a range whose end is after its start: the invalid-range
    branch of [convertToGif], which stages before it rejects, is never
    reached from here. *)
Theorem handleConvert_guards (a : App) (w : FFmpegUtils) :
  ((handleConvert E cb a w).2 = w /\
   app_isConverting (handleConvert E cb a w).1 = app_isConverting a /\
   app_gifUrl (handleConvert E cb a w).1 = app_gifUrl a /\
   app_error (handleConvert E cb a w).1 <> "" /\
   (app_isBrowserSupported a = false \/ app_videoFile a = None \/
    (app_timeRange a).2 <= (app_timeRange a).1)) \/
  (exists file,
      app_isBrowserSupported a = true /\
      app_videoFile a = Some file /\
      (app_timeRange a).1 < (app_timeRange a).2 /\
      (handleConvert E cb a w).2 =
      (convertToGif E file (app_timeRange a).1 (app_timeRange a).2 480 10 75
                    (Some cb) w).2).
Proof.
  unfold handleConvert.
  destruct (app_isBrowserSupported a) eqn:Hs; simpl.
  2:{ left. repeat split; auto; discriminate. }
  destruct (app_videoFile a) as [file|] eqn:Hf.
  2:{ left. repeat split; auto; discriminate. }
  destruct (app_timeRange a) as [s e] eqn:Hr. simpl.
  destruct (Z.leb_spec e s) as [Hle|Hlt].
  { left. simpl. repeat split; auto; discriminate. }
  right. exists file. repeat split; auto.
  destruct (convertToGif E file s e 480 10 75 (Some cb) w) as [[[blob|err]|] w'];
    reflexivity.
Qed.

(** X18.  Whenever the conversion started by [handleConvert] is rejected, the
    error shown is the generic fallback text: [convertToGif] rejects with
    strings, which have no [message], so the specific text never reaches
    the user. *)
Theorem handleConvert_shows_fallback (a : App) (w : FFmpegUtils) file r :
  app_isBrowserSupported a = true ->
  app_videoFile a = Some file ->
  (app_timeRange a).1 < (app_timeRange a).2 ->
  (convertToGif E file (app_timeRange a).1 (app_timeRange a).2 480 10 75
                (Some cb) w).1 = Settled (Rejected r) ->
  app_error (handleConvert E cb a w).1 = conversion_fallback /\
  app_isConverting (handleConvert E cb a w).1 = false /\
  app_gifUrl (handleConvert E cb a w).1 = None.
Proof.
  intros Hs Hf Hr Hrej. unfold handleConvert. rewrite Hs, Hf. simpl.
  destruct (app_timeRange a) as [s e]. simpl in *.
  destruct (Z.leb_spec e s) as [Hle|_]; [lia|].
  pose proof (convertToGif_rejection E file s e 480 10 75 (Some cb) w r Hrej) as Hshape.
  destruct (convertToGif E file s e 480 10 75 (Some cb) w) as [p w']. simpl in *.
  subst p. simpl.
  destruct Hshape as [[-> _] | [(err & _ & _ & ->) | (err & ->)]]; auto.
Qed.


Lemma last_progress_own (rs : list Q) :
  last_progress cb 0 (map (fun ratio => (cb, percent ratio)) rs)
  = List.last (map percent rs) 0.
Proof.
  unfold last_progress. f_equal.
  induction rs as [|r rs IH]; [reflexivity|].
  simpl. rewrite Nat.eqb_refl. simpl. rewrite IH. reflexivity.
Qed.


End HandleConvert.


Lemma handleConvert_shows_fallback_witness :
  app_isBrowserSupported SampleApp.selected = true /\
  app_videoFile SampleApp.selected = Some Demo.clip /\
  (app_timeRange SampleApp.selected).1 < (app_timeRange SampleApp.selected).2 /\
  (convertToGif Demo.failing_command Demo.clip 2 7 480 10 75 (Some 0%nat) Demo.ready).1
  = Settled (Rejected (Str "Failed to convert video: boom")) /\
  app_error (handleConvert Demo.failing_command 0 SampleApp.selected Demo.ready).1
  = "Failed to convert video to GIF. Check console for details.".
Proof.
  split; [reflexivity|]. split; [reflexivity|]. split; [reflexivity|].
  split; [reflexivity|].
  apply (handleConvert_shows_fallback Demo.failing_command 0 SampleApp.selected
           Demo.ready Demo.clip (Str "Failed to convert video: boom"));
    reflexivity.
Defined.


(** ** Times as text *)

Section Digits.

Lemma app_cons c a b : String c a +:+ b = String c (a +:+ b).
Proof. reflexivity. Qed.

Lemma app_empty b : EmptyString +:+ b = b.
Proof. reflexivity. Qed.

Lemma digit_char c d :
  digit_of c = Some d ->
  is_space c = false /\ Ascii.eqb c "-" = false /\ Ascii.eqb c "+" = false /\
  Ascii.eqb c ":" = false /\ Ascii.eqb c "." = false.
Proof.
  destruct c as [[] [] [] [] [] [] [] []]; vm_compute; intros H;
    first [discriminate H | repeat split].
Qed.

Lemma digits_all_digits s acc seen :
  all_digits s = true ->
  (seen || negb (String.eqb s ""))%bool = true ->
  digits acc seen s = Some (acc * 10 ^ Z.of_nat (String.length s) + decimal s).
Proof.
  revert acc seen. induction s as [|c s IH]; intros acc seen Hd Hs.
  - simpl in *. rewrite orb_false_r in Hs. rewrite Hs. f_equal. lia.
  - cbn [all_digits digits decimal String.length] in *.
    destruct (digit_of c) as [d|]; [|discriminate].
    rewrite (IH _ true Hd eq_refl). f_equal. simpl default.
    rewrite Nat2Z.inj_succ, Z.pow_succ_r by lia. ring.
Qed.

Lemma parseInt_digits s :
  all_digits s = true -> s <> "" -> parseInt s = Some (decimal s).
Proof.
  intros Hd Hne. destruct s as [|c s]; [congruence|].
  pose proof Hd as Hd'. cbn [all_digits] in Hd'.
  destruct (digit_of c) as [d|] eqn:Hc; [|discriminate].
  destruct (digit_char c d Hc) as (Hsp & Hm & Hp & _).
  unfold parseInt. cbn [skip_spaces]. rewrite Hsp, Hm, Hp.
  rewrite (digits_all_digits _ 0 false Hd eq_refl). f_equal.
Qed.

Lemma pretty_N_char_digit x :
  (x < 10)%N -> digit_of (pretty_N_char x) = Some (Z.of_N x).
Proof.
  intros H.
  do 10 (destruct x as [|x] using N.peano_ind; [reflexivity|];
         try (apply N.succ_lt_mono in H)).
  lia.
Qed.

End Digits.

Section Printing.

Lemma pretty_N_go_digits x : forall s,
  all_digits s = true ->
  all_digits (pretty_N_go x s) = true /\
  decimal (pretty_N_go x s)
  = Z.of_N x * 10 ^ Z.of_nat (String.length s) + decimal s /\
  (s <> "" -> pretty_N_go x s <> "").
Proof.
  induction (N.lt_wf_0 x) as [x _ IH]. intros s Hs.
  destruct (N.eq_dec x 0%N) as [->|Hx].
  - rewrite pretty_N_go_0. split; [exact Hs|]. split; [simpl; lia | auto].
  - rewrite pretty_N_go_step by lia.
    assert (Hlt : (x `mod` 10 < 10)%N) by (apply N.mod_lt; discriminate).
    pose proof (pretty_N_char_digit _ Hlt) as Hc.
    destruct (IH (x `div` 10)%N ltac:(apply N.div_lt; lia)
                 (String (pretty_N_char (x `mod` 10)) s)) as (Ha & Hv & Hn).
    { cbn [all_digits]. rewrite Hc. exact Hs. }
    split; [exact Ha|]. split; [|intros _; apply Hn; discriminate].
    rewrite Hv. cbn [decimal String.length]. rewrite Hc. simpl default.
    rewrite Nat2Z.inj_succ, Z.pow_succ_r by lia.
    pose proof (N.div_mod x 10 ltac:(discriminate)) as Hdm.
    rewrite Hdm at 3. rewrite N2Z.inj_add, N2Z.inj_mul. simpl (Z.of_N 10). ring.
Qed.

(** The decimal text of a number that is not negative: digits only, at
    least one, writing that number. *)
Lemma toString_digits n :
  0 <= n ->
  all_digits (toString n) = true /\ decimal (toString n) = n /\ toString n <> "".
Proof.
  intros Hn. unfold toString, pretty, pretty_Z.
  destruct n as [|p|p]; [repeat split; discriminate | | lia].
  unfold pretty, pretty_positive, pretty, pretty_N.
  destruct (decide (N.pos p = 0%N)) as [H|_]; [discriminate H|].
  destruct (pretty_N_go_digits (N.pos p) "" eq_refl) as (Ha & Hv & _).
  split; [exact Ha|]. split; [rewrite Hv; simpl; lia|].
  rewrite pretty_N_go_step by lia.
  apply (pretty_N_go_digits (N.pos p `div` 10)); [|discriminate].
  cbn [all_digits]. rewrite pretty_N_char_digit by (apply N.mod_lt; discriminate).
  reflexivity.
Qed.

Lemma zeros_digits k s :
  all_digits s = true ->
  all_digits (zeros k +:+ s) = true /\ decimal (zeros k +:+ s) = decimal s.
Proof.
  intros Hs. induction k as [|k [IHa IHd]]; [auto|].
  cbn [zeros]. rewrite app_cons. cbn [all_digits decimal]. simpl (digit_of "0").
  split; [exact IHa | rewrite IHd; simpl default; lia].
Qed.

Lemma padStart_digits k s :
  all_digits s = true -> s <> "" ->
  all_digits (padStart k s) = true /\ decimal (padStart k s) = decimal s /\
  padStart k s <> "".
Proof.
  intros Hs Hne. unfold padStart.
  destruct (zeros_digits (k - String.length s) s Hs) as [Ha Hd].
  split; [exact Ha|]. split; [exact Hd|].
  destruct (k - String.length s)%nat; [exact Hne | discriminate].
Qed.

Lemma all_digits_includes s c :
  all_digits s = true -> digit_of c = None -> includes c s = false.
Proof.
  intros Hs Hc. induction s as [|c' s IH]; [reflexivity|].
  cbn [all_digits includes] in *.
  destruct (digit_of c') eqn:Hc'; [|discriminate].
  rewrite (IH Hs), orb_false_r.
  destruct (Ascii.eqb_spec c' c) as [->|]; [congruence | reflexivity].
Qed.

Lemma split_without sep s : includes sep s = false -> split sep s = [s].
Proof.
  induction s as [|c s IH]; [reflexivity|].
  cbn [includes split]. intros H. apply orb_false_iff in H as [Hc Hs].
  rewrite Hc, (IH Hs). reflexivity.
Qed.

Lemma split_once sep a b :
  includes sep a = false -> includes sep b = false ->
  split sep (a +:+ String sep b) = [a; b].
Proof.
  intros Ha Hb. induction a as [|c a IH].
  - rewrite app_empty. cbn [split]. rewrite Ascii.eqb_refl, (split_without _ _ Hb).
    reflexivity.
  - cbn [includes] in Ha. apply orb_false_iff in Ha as [Hc Ha].
    rewrite app_cons. cbn [split]. rewrite Hc, (IH Ha). reflexivity.
Qed.

Lemma includes_app c a b :
  includes c (a +:+ b) = (includes c a || includes c b)%bool.
Proof.
  induction a as [|c' a IH]; [reflexivity|].
  rewrite app_cons. cbn [includes]. rewrite IH, orb_assoc. reflexivity.
Qed.

Lemma split_length sep s : length (split sep s) = S (count_char sep s).
Proof.
  induction s as [|c s IH]; [reflexivity|].
  cbn [split count_char]. destruct (Ascii.eqb c sep).
  - simpl. rewrite IH. reflexivity.
  - destruct (split sep s) as [|piece rest]; [discriminate IH|]. simpl in *. lia.
Qed.

End Printing.

Section Parsing.

(** What [parseTimeString] answers on minutes, seconds and a fraction all
    written in digits. *)
Lemma parseTimeString_fields m ss frac :
  all_digits m = true -> m <> "" ->
  all_digits ss = true -> ss <> "" ->
  all_digits frac = true -> frac <> "" ->
  parseTimeString (m +:+ ":" +:+ ss +:+ "." +:+ frac)
  = num_add (num_mul (Some (inject_Z (decimal m))) (Some 60%Q))
            (num_add (Some (inject_Z (decimal ss)))
                     (num_div (Some (inject_Z (decimal frac))) (Some 1000%Q))).
Proof.
  intros Hm Hmn Hs Hsn Hf Hfn. unfold parseTimeString.
  assert (Hrest : includes ":" (ss +:+ "." +:+ frac) = false).
  { rewrite !includes_app, (all_digits_includes ss ":" Hs eq_refl),
      (all_digits_includes frac ":" Hf eq_refl). reflexivity. }
  destruct (String.eqb_spec (m +:+ ":" +:+ ss +:+ "." +:+ frac) "") as [He|_].
  { destruct m; [congruence | discriminate He]. }
  change (m +:+ ":" +:+ ss +:+ "." +:+ frac)
    with (m +:+ String ":" (ss +:+ "." +:+ frac)).
  rewrite (split_once ":" m _ (all_digits_includes _ ":" Hm eq_refl) Hrest).
  cbn [length Nat.eqb negb nth].
  assert (Hdot : includes "." (ss +:+ "." +:+ frac) = true).
  { rewrite includes_app. apply orb_true_iff. right. reflexivity. }
  rewrite Hdot.
  change (ss +:+ "." +:+ frac) with (ss +:+ String "." frac).
  rewrite (split_once "." ss frac (all_digits_includes _ "." Hs eq_refl)
             (all_digits_includes _ "." Hf eq_refl)).
  cbn [nth]. rewrite !parseInt_digits by assumption. reflexivity.
Qed.

Lemma parseTimeString_plain m ss :
  all_digits m = true -> m <> "" ->
  all_digits ss = true -> ss <> "" ->
  parseTimeString (m +:+ ":" +:+ ss)
  = num_add (num_mul (Some (inject_Z (decimal m))) (Some 60%Q))
            (Some (inject_Z (decimal ss))).
Proof.
  intros Hm Hmn Hs Hsn. unfold parseTimeString.
  destruct (String.eqb_spec (m +:+ ":" +:+ ss) "") as [He|_].
  { destruct m; [congruence | discriminate He]. }
  change (m +:+ ":" +:+ ss) with (m +:+ String ":" ss).
  rewrite (split_once ":" m ss (all_digits_includes _ ":" Hm eq_refl)
             (all_digits_includes _ ":" Hs eq_refl)).
  cbn [length Nat.eqb negb nth].
  rewrite (all_digits_includes _ "." Hs eq_refl).
  rewrite !parseInt_digits by assumption. reflexivity.
Qed.

End Parsing.





(** X23.  A text that does not hold exactly one [":"] is read as 0 and not as
    an error: the empty text, bare seconds such as ["90"], and an
    hours-minutes-seconds text such as ["1:02:03"] all give 0. *)
Theorem parseTimeString_colons (timeString : string) :
  count_char ":" timeString <> 1%nat ->
  parseTimeString timeString = Some 0%Q.
Proof.
  intros H. unfold parseTimeString.
  destruct (String.eqb timeString ""); [reflexivity|].
  rewrite split_length.
  destruct (Nat.eqb_spec (S (count_char ":" timeString)) 2) as [He|_]; [lia|].
  reflexivity.
Qed.

Lemma parseTimeString_colons_witness :
  count_char ":" "1:02:03" <> 1%nat /\ parseTimeString "1:02:03" = Some 0%Q.
Proof.
  assert (H : count_char ":" "1:02:03" <> 1%nat) by discriminate.
  split; [exact H | exact (parseTimeString_colons "1:02:03" H)].
Defined.

(** ** TimeRangeSelector *)

Section Selector.

Lemma Qltb_lt x y : Qltb x y = true <-> (x < y)%Q.
Proof. unfold Qltb, Qlt. apply Z.ltb_lt. Qed.

Lemma slider_start_keeps d n st :
  (sel_startTime st < sel_endTime st)%Q /\ (sel_endTime st <= d)%Q ->
  (sel_startTime (handleStartSliderChange n st)
   < sel_endTime (handleStartSliderChange n st))%Q /\
  (sel_endTime (handleStartSliderChange n st) <= d)%Q.
Proof.
  intros [H1 H2]. unfold handleStartSliderChange.
  destruct n as [x|]; [|auto]. simpl.
  destruct (Qltb x (sel_endTime st)) eqn:Hx; [|auto].
  simpl. apply Qltb_lt in Hx. auto.
Qed.

Lemma slider_end_keeps d n st :
  (sel_startTime st < sel_endTime st)%Q /\ (sel_endTime st <= d)%Q ->
  (sel_startTime (handleEndSliderChange d n st)
   < sel_endTime (handleEndSliderChange d n st))%Q /\
  (sel_endTime (handleEndSliderChange d n st) <= d)%Q.
Proof.
  intros [H1 H2]. unfold handleEndSliderChange.
  destruct n as [x|]; [|auto]. simpl.
  destruct (Qltb (sel_startTime st) x) eqn:Hx; [|auto].
  destruct (Qle_bool x d) eqn:Hd; [|auto].
  simpl. apply Qltb_lt in Hx. apply Qle_bool_iff in Hd. auto.
Qed.

Lemma edit_keeps d ed st :
  (sel_startTime st < sel_endTime st)%Q /\ (sel_endTime st <= d)%Q ->
  (sel_startTime (apply_edit d st ed) < sel_endTime (apply_edit d st ed))%Q /\
  (sel_endTime (apply_edit d st ed) <= d)%Q.
Proof.
  destruct ed; simpl; unfold handleStartTimeChange, handleEndTimeChange;
    auto using slider_start_keeps, slider_end_keeps.
Qed.

End Selector.

(** X24.  Once a video of positive duration is in, with the start before
    that duration (as it is at the first render, where the start is 0),
    whatever is typed in the two text fields and whatever the two sliders
    are moved to, in whatever order, the start stays before the end and the
    end stays within the duration; the parent is then told the range
    exactly when the start is not negative, which the start field does not
    ensure. *)
Theorem range_stays_ordered (videoDuration : Q) (st0 : selector) (eds : list edit) :
  (0 < videoDuration)%Q ->
  (sel_startTime st0 < videoDuration)%Q ->
  let st := apply_edits videoDuration (on_duration videoDuration st0) eds in
  (sel_startTime st < sel_endTime st)%Q /\
  (sel_endTime st <= videoDuration)%Q /\
  (notify videoDuration st = Some (sel_startTime st, sel_endTime st) <->
   (0 <= sel_startTime st)%Q).
Proof.
  intros Hd Hs st.
  assert (H : (sel_startTime st < sel_endTime st)%Q /\
              (sel_endTime st <= videoDuration)%Q).
  { subst st. unfold apply_edits.
    assert (H0 : (sel_startTime (on_duration videoDuration st0)
                  < sel_endTime (on_duration videoDuration st0))%Q /\
                 (sel_endTime (on_duration videoDuration st0) <= videoDuration)%Q).
    { unfold on_duration. apply Qltb_lt in Hd. rewrite Hd. simpl.
      split; [exact Hs | apply Qle_refl]. }
    revert H0. generalize (on_duration videoDuration st0).
    induction eds as [|ed eds IH]; intros st1 H0; [exact H0|].
    simpl. apply IH, edit_keeps, H0. }
  destruct H as [H1 H2]. split; [exact H1|]. split; [exact H2|].
  unfold notify.
  apply Qltb_lt in H1. apply Qle_bool_iff in H2. rewrite H1, H2.
  rewrite andb_true_r. simpl.
  destruct (Qle_bool 0 (sel_startTime st)) eqn:H0.
  - apply Qle_bool_iff in H0. tauto.
  - split; [discriminate|]. intros H. apply Qle_bool_iff in H. congruence.
Qed.

(** The property on a first render without a video, then a video of 20
    seconds, then five edits, of which the third types a negative start. *)
Lemma range_stays_ordered_witness :
  let st := apply_edits 20 (on_duration 20 (mount 0))
              [StartText "00:05.000"; EndText "00:12"; StartText "-1:00";
               EndSlider None; EndText "90:00"] in
  (0 < 20)%Q /\ (sel_startTime (mount 0) < 20)%Q /\
  (sel_startTime st == -60)%Q /\ (sel_endTime st == 12)%Q /\
  (sel_startTime st < sel_endTime st)%Q /\
  notify 20 st = None.
Proof.
  intros st. assert (H : (0 < 20)%Q) by reflexivity.
  assert (H' : (sel_startTime (mount 0) < 20)%Q) by reflexivity.
  split; [exact H|]. split; [exact H'|].
  split; [reflexivity|]. split; [reflexivity|].
  destruct (range_stays_ordered 20 (mount 0)
              [StartText "00:05.000"; EndText "00:12"; StartText "-1:00";
               EndSlider None; EndText "90:00"] H H') as (Ho & _ & _).
  split; [exact Ho | reflexivity].
Defined.

(** X25.  When a video comes in whose duration is positive but not beyond
    the start carried over from the video before, the end is set to the
    new duration and the range is left inverted or empty: the parent is not
    told a range. *)
Theorem shorter_video_inverts_range (videoDuration : Q) (st0 : selector) :
  (0 < videoDuration)%Q ->
  (videoDuration <= sel_startTime st0)%Q ->
  sel_endTime (on_duration videoDuration st0) = videoDuration /\
  sel_startTime (on_duration videoDuration st0) = sel_startTime st0 /\
  notify videoDuration (on_duration videoDuration st0) = None.
Proof.
  intros Hd Hs. unfold on_duration. apply Qltb_lt in Hd. rewrite Hd. simpl.
  split; [reflexivity|]. split; [reflexivity|].
  unfold notify. simpl.
  destruct (Qltb (sel_startTime st0) videoDuration) eqn:Hlt.
  - apply Qltb_lt in Hlt. exfalso. apply (Qlt_not_le _ _ Hlt Hs).
  - rewrite andb_false_r. reflexivity.
Qed.

Lemma shorter_video_inverts_range_witness :
  (0 < 10)%Q /\ (10 <= sel_startTime (Selector 30 45))%Q /\
  notify 10 (on_duration 10 (Selector 30 45)) = None.
Proof.
  assert (H : (0 < 10)%Q) by reflexivity.
  assert (H' : (10 <= sel_startTime (Selector 30 45))%Q) by (vm_compute; discriminate).
  split; [exact H|]. split; [exact H'|].
  apply (shorter_video_inverts_range 10 (Selector 30 45) H H').
Defined.
